(** * ol-ocr: the catalog persistence layer

    A shallow embedding of [src/ol_ocr/database.py] and
    [src/ol_ocr/library.py]: the storage session, the transactional
    scope, [Book.save], [Book.from_db], [fetch_openlibrary_book] and
    [find_isbn], followed by the properties of the catalog store. *)

From Stdlib Require Import ZArith Lia Ascii.
From stdpp Require Import base tactics option list strings gmap.

(** * Exceptions and results *)

(** The requests a connection receives: the SQL statements of the two
    modules, one constructor per statement text, and the calls of
    [commit] and [rollback]. *)
Inductive statement : Type :=
| Pragma (setting : string)
| Begin
| Commit
| Rollback
| SelectBookIdByIsbn (isbn : string)
| InsertBook (url isbn title : string) (subtitle cover_url : option string)
| SelectAuthorIdByUrl (url : string)
| InsertAuthor (url name : string)
| InsertBookAuthor (b_id a_id : Z)
| SelectSubjectIdByName (name : string)
| InsertSubject (name : string)
| InsertBookSubject (b_id s_id : Z)
| SelectBookByIsbn (isbn : string)
| SelectAuthorsOfBook (b_id : Z)
| SelectSubjectsOfBook (b_id : Z).

Inductive violation : Type :=
| UniqueViolation (column : string)
| ForeignKeyViolation.

(** Python exceptions that the modelled code can raise or handle. *)
Inductive exn : Type :=
| OperationalError (failed : statement)
| IntegrityError (violated : violation)
| BookNotInDatabaseError (isbn : string)
| IndexError
| NotValidISBNError (isbnlike : string)
| KeyError (key : string)
| UnboundLocalError (variable : string)
| OtherError (message : string).

Inductive result (A : Type) : Type :=
| Ok (value : A)
| Raise (e : exn).
Arguments Ok {A} value.
Arguments Raise {A} e.

Definition raised {A} (r : result A) : Prop :=
  match r with Ok _ => False | Raise _ => True end.

(** * The schema *)

Module Schema.

(** Modelled from the spec: [schema.sql], which [create_db_if_needed]
    applies, is not among the sources.  The five tables, their unique
    columns and the foreign keys of the link tables follow the schema the
    specification gives for it.  Tables are lists in insertion order. *)
Record book_row : Type := BookRow {
  book_id : Z;
  book_url : string;
  book_isbn : string;
  book_title : string;
  book_subtitle : option string;
  book_cover_url : option string }.

Record author_row : Type := AuthorRow {
  author_id : Z;
  author_url : string;
  author_name : string }.

Record subject_row : Type := SubjectRow {
  subject_id : Z;
  sub_name : string }.

Record database : Type := Database {
  book : list book_row;
  author : list author_row;
  subject : list subject_row;
  book_author : list (Z * Z);
  book_subject : list (Z * Z) }.

(** The store right after the schema has been applied. *)
Definition empty : database := Database [] [] [] [] [].

End Schema.
Export Schema.

#[global] Instance statement_eq_dec : EqDecision statement.
Proof. solve_decision. Defined.
#[global] Instance violation_eq_dec : EqDecision violation.
Proof. solve_decision. Defined.
#[global] Instance exn_eq_dec : EqDecision exn.
Proof. solve_decision. Defined.
#[global] Instance book_row_eq_dec : EqDecision book_row.
Proof. solve_decision. Defined.
#[global] Instance author_row_eq_dec : EqDecision author_row.
Proof. solve_decision. Defined.
#[global] Instance subject_row_eq_dec : EqDecision subject_row.
Proof. solve_decision. Defined.
#[global] Instance database_eq_dec : EqDecision database.
Proof. solve_decision. Defined.

(** * The storage engine *)

Module Engine.

(** The row id given to a new row: one more than the largest in use. *)
Definition next_rowid (ids : list Z) : Z := (foldr Z.max 0 ids + 1)%Z.

(** What one statement does to the tables. *)
Inductive outcome (A : Type) : Type :=
| Failed (e : exn)
| Rows (rows : list A)
| Inserted (d : database) (rowid : Z)
| Ignored.
Arguments Failed {A} e.
Arguments Rows {A} rows.
Arguments Inserted {A} d rowid.
Arguments Ignored {A}.

(** The type of the rows a statement returns. *)
Definition row_type (st : statement) : Type :=
  match st with
  | SelectBookIdByIsbn _ | SelectAuthorIdByUrl _ | SelectSubjectIdByName _ => Z
  | SelectBookByIsbn _ => book_row
  | SelectAuthorsOfBook _ => (string * string)%type
  | SelectSubjectsOfBook _ => string
  | _ => Empty_set
  end.

Definition book_ids (d : database) : list Z := book_id <$> book d.
Definition author_ids (d : database) : list Z := author_id <$> author d.
Definition subject_ids (d : database) : list Z := subject_id <$> subject d.

(** The link tables have no [id] column; their rows are numbered in
    insertion order and are never deleted. *)
Definition link_rowid (links : list (Z * Z)) : Z := (Z.of_nat (length links) + 1)%Z.

Definition insert_book (url isbn title : string) (subtitle cover_url : option string)
    (d : database) : outcome Empty_set :=
  if bool_decide (isbn ∈ book_isbn <$> book d) then
    Failed (IntegrityError (UniqueViolation "book.isbn"))
  else if bool_decide (url ∈ book_url <$> book d) then Ignored
  else
    let rowid := next_rowid (book_ids d) in
    Inserted (Database (book d ++ [BookRow rowid url isbn title subtitle cover_url])
                (author d) (subject d) (book_author d) (book_subject d)) rowid.

Definition insert_author (url name : string) (d : database) : outcome Empty_set :=
  if bool_decide (url ∈ author_url <$> author d) then Ignored
  else
    let rowid := next_rowid (author_ids d) in
    Inserted (Database (book d) (author d ++ [AuthorRow rowid url name])
                (subject d) (book_author d) (book_subject d)) rowid.

Definition insert_subject (name : string) (d : database) : outcome Empty_set :=
  if bool_decide (name ∈ sub_name <$> subject d) then Ignored
  else
    let rowid := next_rowid (subject_ids d) in
    Inserted (Database (book d) (author d) (subject d ++ [SubjectRow rowid name])
                (book_author d) (book_subject d)) rowid.

Definition insert_book_author (b_id a_id : Z) (d : database) : outcome Empty_set :=
  if bool_decide ((b_id, a_id) ∈ book_author d) then Ignored
  else if bool_decide (b_id ∈ book_ids d) && bool_decide (a_id ∈ author_ids d) then
    Inserted (Database (book d) (author d) (subject d)
                (book_author d ++ [(b_id, a_id)]) (book_subject d))
             (link_rowid (book_author d))
  else Failed (IntegrityError ForeignKeyViolation).

Definition insert_book_subject (b_id s_id : Z) (d : database) : outcome Empty_set :=
  if bool_decide ((b_id, s_id) ∈ book_subject d) then Ignored
  else if bool_decide (b_id ∈ book_ids d) && bool_decide (s_id ∈ subject_ids d) then
    Inserted (Database (book d) (author d) (subject d)
                (book_author d) (book_subject d ++ [(b_id, s_id)]))
             (link_rowid (book_subject d))
  else Failed (IntegrityError ForeignKeyViolation).

(** [SELECT url, name FROM author a JOIN book_author ba ON a.id = ba.a_id
    WHERE ba.b_id = ?]: SQL leaves the order of the rows open; here the
    link table is scanned in insertion order. *)
Definition authors_of_book (b_id : Z) (d : database) : list (string * string) :=
  ba ← filter (λ ba, ba.1 = b_id) (book_author d);
  a ← filter (λ a, author_id a = ba.2) (author d);
  [(author_url a, author_name a)].

Definition subjects_of_book (b_id : Z) (d : database) : list string :=
  bs ← filter (λ bs, bs.1 = b_id) (book_subject d);
  s ← filter (λ s, subject_id s = bs.2) (subject d);
  [sub_name s].

Definition run (st : statement) (d : database) : outcome (row_type st) :=
  match st return outcome (row_type st) with
  | Pragma _ | Begin | Commit | Rollback => Rows []
  | SelectBookIdByIsbn isbn =>
      Rows (book_id <$> filter (λ b, book_isbn b = isbn) (book d))
  | InsertBook url isbn title subtitle cover_url =>
      insert_book url isbn title subtitle cover_url d
  | SelectAuthorIdByUrl url =>
      Rows (author_id <$> filter (λ a, author_url a = url) (author d))
  | InsertAuthor url name => insert_author url name d
  | InsertBookAuthor b_id a_id => insert_book_author b_id a_id d
  | SelectSubjectIdByName name =>
      Rows (subject_id <$> filter (λ s, sub_name s = name) (subject d))
  | InsertSubject name => insert_subject name d
  | InsertBookSubject b_id s_id => insert_book_subject b_id s_id d
  | SelectBookByIsbn isbn => Rows (filter (λ b, book_isbn b = isbn) (book d))
  | SelectAuthorsOfBook b_id => Rows (authors_of_book b_id d)
  | SelectSubjectsOfBook b_id => Rows (subjects_of_book b_id d)
  end.

End Engine.
Export Engine.

(** * database.py: the storage session and the transactional scope *)

Module Database.

(** A connection opened with [isolation_level=None]: the tables as this
    connection sees them, the tables as they were at [BEGIN] while a
    transaction is open, SQLite's [last_insert_rowid], the requests
    received so far, and the number of statements that still succeed
    before the storage engine fails one ([None]: the engine never fails). *)
Record connection : Type := Connection {
  store : database;
  undo : option database;
  last_insert_rowid : Z;
  issued : list statement;
  faults : option nat }.

Record cursor (A : Type) : Type := Cursor {
  rows : list A;
  lastrowid : Z }.
Arguments Cursor {A} rows lastrowid.
Arguments rows {A} c.
Arguments lastrowid {A} c.

Definition fetchone {A} (cur : cursor A) : option A := head (rows cur).
Definition fetchall {A} (cur : cursor A) : list A := rows cur.

(** Code that uses a connection and may raise. *)
Definition M (A : Type) : Type := connection → result A * connection.

#[global] Instance M_ret : MRet M := λ A x c, (Ok x, c).
#[global] Instance M_bind : MBind M := λ A B k m c,
  match m c with
  | (Ok x, c') => k x c'
  | (Raise e, c') => (Raise e, c')
  end.

Definition raise {A} (e : exn) : M A := λ c, (Raise e, c).

(** [try: body finally: cleanup] *)
Definition finally {A} (body : M A) (cleanup : M unit) : M A := λ c,
  let (r, c1) := body c in
  match cleanup c1 with
  | (Ok _, c2) => (r, c2)
  | (Raise e, c2) => (Raise e, c2)
  end.

(** [for x in xs: body] *)
Fixpoint for_each {A} (xs : list A) (body : A → M unit) : M unit :=
  match xs with
  | [] => mret ()
  | x :: xs' => body x;; for_each xs' body
  end.

(** The connection receives a statement: it is recorded, and the engine
    fails it when the countdown has run out. *)
Definition issue (st : statement) : M unit := λ c,
  let log := issued c ++ [st] in
  match faults c with
  | Some O =>
      (Raise (OperationalError st),
       Connection (store c) (undo c) (last_insert_rowid c) log None)
  | Some (S n) =>
      (Ok (), Connection (store c) (undo c) (last_insert_rowid c) log (Some n))
  | None => (Ok (), Connection (store c) (undo c) (last_insert_rowid c) log None)
  end.

Definition perform (st : statement) : M (cursor (row_type st)) := λ c,
  match run st (store c) with
  | Failed e => (Raise e, c)
  | Rows rs => (Ok (Cursor rs (last_insert_rowid c)), c)
  | Inserted d rowid =>
      (Ok (Cursor [] rowid), Connection d (undo c) rowid (issued c) (faults c))
  | Ignored => (Ok (Cursor [] (last_insert_rowid c)), c)
  end.

(** [conn.execute(sql, params)] and [cur.execute(sql, params)]: the cursor
    holds the rows and, as [lastrowid], the connection's
    [last_insert_rowid] after the statement. *)
Definition execute (st : statement) : M (cursor (row_type st)) :=
  issue st;; perform st.

(** [conn.execute("BEGIN")] *)
Definition begin : M unit :=
  issue Begin;;
  (λ c, match undo c with
        | Some _ => (Raise (OperationalError Begin), c)
        | None =>
            (Ok (), Connection (store c) (Some (store c)) (last_insert_rowid c)
                      (issued c) (faults c))
        end) : M unit.

(** [conn.commit()]: nothing to do outside a transaction. *)
Definition commit : M unit := λ c,
  (Ok (), Connection (store c) None (last_insert_rowid c)
            (issued c ++ [Commit]) (faults c)).

(** [conn.rollback()] *)
Definition rollback : M unit := λ c,
  (Ok (), Connection (default (store c) (undo c)) None (last_insert_rowid c)
            (issued c ++ [Rollback]) (faults c)).

(** [sqlite3.connect(db_file, isolation_level=None, ...)] *)
Definition connect (db_file : database) (failing : option nat) : connection :=
  Connection db_file None 0 [] failing.

(** What the file holds once the connection is gone: an open transaction
    is lost. *)
Definition close (c : connection) : database := default (store c) (undo c).

(** The body of [db_conn] between [connect] and [close]. *)
Definition session {A} (body : M A) : M A :=
  execute (Pragma "journal_mode=wal");;
  execute (Pragma "synchronous = normal");;
  execute (Pragma "temp_store = memory");;
  execute (Pragma "foreign_keys = on");;
  finally body
    (execute (Pragma "analysis_limit=400");;
     execute (Pragma "optimize");;
     mret ()).

(** [with db_conn(db_file) as conn: body], as a function of the file and
    of the engine's failure countdown; it gives the outcome of the block
    and the file afterwards. *)
Definition db_conn {A} (db_file : database) (failing : option nat) (body : M A)
    : result A * database :=
  let (r, c) := session body (connect db_file failing) in (r, close c).

(** [try: body except: handler; raise else: otherwise] *)
Definition try_except_else {A} (body : M A) (handler otherwise : M unit) : M A :=
  λ c, match body c with
       | (Raise e, c1) => (handler;; raise e) c1
       | (Ok x, c1) => (otherwise;; mret x) c1
       end.

Definition transaction {A} (body : M A) : M A :=
  begin;;
  try_except_else body rollback commit.

End Database.
Export Database.

(** * library.py: the catalog store, the fetcher and the resolver *)

Module Library.

(** [isbnlib.Isbn], of which the code reads [canonical] only. *)
Record Isbn : Type := { canonical : string }.

Module Author.
Record t : Type := new { url : string; name : string }.
End Author.

Module Book.

Record t : Type := new {
  url : string;
  isbn : string;
  title : string;
  subtitle : option string;
  authors : list Author.t;
  subjects : gset string;
  cover_url : option string }.

(** The argument of [from_db]: an [Isbn] object or a plain string. *)
Inductive isbn_like : Type :=
| IsbnObject (i : Isbn)
| IsbnStr (s : string).

Definition canonical_of (i : isbn_like) : string :=
  match i with
  | IsbnObject o => canonical o
  | IsbnStr s => s
  end.

Definition from_db_body (isbn : string) : M t :=
  cur ← execute (SelectBookByIsbn isbn);
  match fetchone cur with
  | None => raise (BookNotInDatabaseError isbn)
  | Some result =>
      let b_id := book_id result in
      cur ← execute (SelectAuthorsOfBook b_id);
      let authors := (λ author_row, Author.new author_row.1 author_row.2) <$> fetchall cur in
      cur ← execute (SelectSubjectsOfBook b_id);
      let subjects : gset string := list_to_set (fetchall cur) in
      mret (new (book_url result) (book_isbn result) (book_title result)
              (book_subtitle result) authors subjects (book_cover_url result))
  end.

Definition from_db (isbn : isbn_like) (failing : option nat) (DB_FILE : database)
    : result t * database :=
  db_conn DB_FILE failing (from_db_body (canonical_of isbn)).

(** The loops of [save] run, for each author and each subject, a
    find-or-create that yields the row's identity, and then the insert
    of the link. *)
Definition find_or_create_author (author : Author.t) : M Z :=
  cur ← execute (SelectAuthorIdByUrl (Author.url author));
  match fetchone cur with
  | None =>
      cur ← execute (InsertAuthor (Author.url author) (Author.name author));
      mret (lastrowid cur)
  | Some result => mret result
  end.

Definition save_author (b_id : Z) (author : Author.t) : M unit :=
  a_id ← find_or_create_author author;
  execute (InsertBookAuthor b_id a_id);; mret ().

Definition find_or_create_subject (subject : string) : M Z :=
  cur ← execute (SelectSubjectIdByName subject);
  match fetchone cur with
  | None =>
      cur ← execute (InsertSubject subject);
      mret (lastrowid cur)
  | Some result => mret result
  end.

Definition save_subject (b_id : Z) (subject : string) : M unit :=
  s_id ← find_or_create_subject subject;
  execute (InsertBookSubject b_id s_id);; mret ().

(** The first step of [save]: the identity of the book row. *)
Definition save_book (self : t) : M Z :=
  cur ← execute (SelectBookIdByIsbn (isbn self));
  match fetchone cur with
  | None =>
      cur ← transaction
              (execute (InsertBook (url self) (isbn self) (title self)
                          (subtitle self) (cover_url self)));
      mret (lastrowid cur)
  | Some result => mret result
  end.

Definition save_body (self : t) : M unit :=
  b_id ← save_book self;
  for_each (authors self) (save_author b_id);;
  for_each (elements (subjects self)) (save_subject b_id);;
  commit.

Definition save (self : t) (failing : option nat) (DB_FILE : database)
    : result unit * database :=
  db_conn DB_FILE failing (save_body self).

End Book.

(** ** The metadata fetcher *)

Section Fetch.

(** The record OpenLibrary returns for a key; its shape plays no role here. *)
Context {Record_ : Type}.

(** What [httpx.get] gives back: the status, the headers, and what
    [resp.json()] yields. *)
Record response : Type := Response {
  status_code : Z;
  headers : list (string * string);
  json : result (gmap string Record_) }.

Inductive printed : Type :=
| PrintStr (s : string)
| PrintInt (n : Z)
| PrintHeaders (h : list (string * string)).

(** The remote service, as seen by one call of [httpx.get]. *)
Context (httpx_get : string → result response).

Definition bibkey (isbn : Isbn) : string := "ISBN:" +:+ canonical isbn.

Definition request_url (key : string) : string :=
  "https://openlibrary.org/api/books?bibkeys=" +:+ key +:+ "&format=json&jscmd=data".

(** The [try] block: the binding of [resp] it leaves, and its outcome. *)
Definition fetch_attempt (key url : string) : option response * result Record_ :=
  match httpx_get url with
  | Raise e => (None, Raise e)
  | Ok resp =>
      (Some resp,
       match json resp with
       | Raise e => Raise e
       | Ok resp_data =>
           match resp_data !! key with
           | None => Raise (KeyError key)
           | Some book => Ok book
           end
       end)
  end.

(** The lines printed and the outcome of the call. *)
Definition fetch_openlibrary_book (isbn : Isbn) : list printed * result Record_ :=
  let key := bibkey isbn in
  let url := request_url key in
  match fetch_attempt key url with
  | (_, Ok book) => ([], Ok book)
  | (Some resp, Raise e) =>
      ([PrintStr key; PrintStr url; PrintInt (status_code resp);
        PrintHeaders (headers resp)], Raise e)
  | (None, Raise e) =>
      ([PrintStr key; PrintStr url], Raise (UnboundLocalError "resp"))
  end.

End Fetch.

(** ** The identifier resolver *)

Section Resolver.

(** [isbnlib.get_isbnlike] and the constructor of [isbnlib.Isbn]. *)
Context (get_isbnlike : string → list string) (Isbn_new : string → result Isbn).

(** [xs[0]] *)
Definition first_item {A} (xs : list A) : result A :=
  match xs with
  | [] => Raise IndexError
  | x :: _ => Ok x
  end.

Definition find_isbn (text : string) : result (option Isbn) :=
  match
    match first_item (get_isbnlike text) with
    | Ok isbnlike => Isbn_new isbnlike
    | Raise e => Raise e
    end
  with
  | Ok isbn => Ok (Some isbn)
  | Raise IndexError => Ok None
  | Raise (NotValidISBNError _) => Ok None
  | Raise e => Raise e
  end.

End Resolver.

End Library.
Export Library.

(** * Stores that satisfy the schema *)

(** The unique columns of the five tables. *)
Record unique_keys (d : database) : Prop := UniqueKeys {
  unique_isbn : NoDup (book_isbn <$> book d);
  unique_book_url : NoDup (book_url <$> book d);
  unique_author_url : NoDup (author_url <$> author d);
  unique_sub_name : NoDup (sub_name <$> subject d);
  unique_book_author : NoDup (book_author d);
  unique_book_subject : NoDup (book_subject d) }.

(** Row ids are the primary keys, and the engine hands them out from 1. *)
Definition row_ids (ids : list Z) : Prop :=
  NoDup ids ∧ Forall (λ i, 0 < i)%Z ids.

(** The foreign keys of the link tables. *)
Definition references (d : database) : Prop :=
  Forall (λ ba, ba.1 ∈ book_ids d ∧ ba.2 ∈ author_ids d) (book_author d) ∧
  Forall (λ bs, bs.1 ∈ book_ids d ∧ bs.2 ∈ subject_ids d) (book_subject d).

Record well_formed (d : database) : Prop := WellFormed {
  wf_unique : unique_keys d;
  wf_book_ids : row_ids (book_ids d);
  wf_author_ids : row_ids (author_ids d);
  wf_subject_ids : row_ids (subject_ids d);
  wf_references : references d }.

(** The stores that calls of [save] and [from_db] produce from the empty
    store, whatever the engine fails. *)
Inductive reachable : database → Prop :=
| reachable_empty : reachable empty
| reachable_save (self : Book.t) (failing : option nat) (d : database) :
    reachable d → reachable (Book.save self failing d).2
| reachable_from_db (isbn : Book.isbn_like) (failing : option nat) (d : database) :
    reachable d → reachable (Book.from_db isbn failing d).2.

(** The statements of [save] up to and including the insert of the book
    row: the setup of the session, the lookup by isbn, and the
    transactional scope. *)
Definition book_phase (st : statement) : Prop :=
  match st with
  | Pragma setting =>
      setting ∈ ["journal_mode=wal"; "synchronous = normal";
                 "temp_store = memory"; "foreign_keys = on"]
  | Begin | SelectBookIdByIsbn _ | InsertBook _ _ _ _ _ => True
  | _ => False
  end.

(** The engine failed a statement of this connection. *)
Definition engine_failed (before after : connection) : Prop :=
  faults before ≠ None ∧ faults after = None.

(** The author rows a store holds for a url agree with the author. *)
Definition agrees (d : database) (a : Author.t) : Prop :=
  ∀ row, row ∈ author d → author_url row = Author.url a →
         author_name row = Author.name a.

(** Weakest preconditions for code on a connection. *)
Definition wp {A} (m : M A) (Q : result A → connection → Prop) (c : connection) : Prop :=
  Q (m c).1 (m c).2.

(** A stand-in for [isbnlib], to run [find_isbn] on: the candidates are
    the words of the text, and a candidate is valid when, hyphens
    removed, it has thirteen characters. *)
Fixpoint drop_hyphens (s : string) : string :=
  match s with
  | EmptyString => EmptyString
  | String a s' =>
      if Ascii.eqb a "-"%char then drop_hyphens s' else String a (drop_hyphens s')
  end.

Definition sample_get_isbnlike (text : string) : list string := String.words text.

Definition sample_Isbn_new (isbnlike : string) : result Isbn :=
  let digits := drop_hyphens isbnlike in
  if bool_decide (String.length digits = 13%nat)
  then Ok {| canonical := digits |}
  else Raise (NotValidISBNError isbnlike).

(** * Invariants of a connection *)

(** [P] holds of the tables and of the tables a rollback would restore. *)
Definition sound (P : database → Prop) (c : connection) : Prop :=
  P (store c) ∧ from_option P True (undo c).

Definition keeps {A} (P : database → Prop) (m : M A) : Prop :=
  ∀ c, sound P c → sound P (m c).2.

(** Every exception [m] raises satisfies [E]. *)
Definition raises_only {A} (E : exn → Prop) (m : M A) : Prop :=
  ∀ c e, (m c).1 = Raise e → E e.

(** A failure of the engine leaves [m] as an exception. *)
Definition propagates {A} (m : M A) : Prop :=
  ∀ c, engine_failed c (m c).2 → raised (m c).1.

(** An exception of the phases after the book row. *)
Definition late (e : exn) : Prop :=
  ∀ st, e = OperationalError st → ¬ book_phase st.

(** * Runs in which the engine fails nothing *)

(** [m], run on [c] by an engine that fails nothing, gives [r] and
    leaves the tables [d'], the transaction state as it was. *)
Definition quietly {A} (m : M A) (c : connection) (r : result A) (d' : database) : Prop :=
  (m c).1 = r ∧ store (m c).2 = d' ∧ undo (m c).2 = undo c ∧ faults (m c).2 = None.

Definition lookup_book_id (isbn : string) (d : database) : option Z :=
  head (book_id <$> filter (λ b, book_isbn b = isbn) (book d)).
Definition lookup_author_id (url : string) (d : database) : option Z :=
  head (author_id <$> filter (λ a, author_url a = url) (author d)).
Definition lookup_subject_id (name : string) (d : database) : option Z :=
  head (subject_id <$> filter (λ s, sub_name s = name) (subject d)).

(** The outcome of an insert, as the caller sees it. *)
Definition settle {A} (o : outcome A) (d : database) : result unit * database :=
  match o with
  | Failed e => (Raise e, d)
  | Inserted d' _ => (Ok (), d')
  | _ => (Ok (), d)
  end.

(** The summaries below say what the steps of [save] and [from_db]
    compute when no statement is failed by the engine; the lemmas
    [save_quiet] and [from_db_quiet] prove them equal to the code. *)
Definition author_found (a : Author.t) (d : database) : Z * database :=
  match lookup_author_id (Author.url a) d with
  | Some a_id => (a_id, d)
  | None =>
      match insert_author (Author.url a) (Author.name a) d with
      | Inserted d' rowid => (rowid, d')
      | _ => (0%Z, d)
      end
  end.

Definition author_step (b_id : Z) (a : Author.t) (d : database) : result unit * database :=
  let (a_id, d1) := author_found a d in
  settle (insert_book_author b_id a_id d1) d1.

Definition subject_found (name : string) (d : database) : Z * database :=
  match lookup_subject_id name d with
  | Some s_id => (s_id, d)
  | None =>
      match insert_subject name d with
      | Inserted d' rowid => (rowid, d')
      | _ => (0%Z, d)
      end
  end.

Definition subject_step (b_id : Z) (name : string) (d : database) : result unit * database :=
  let (s_id, d1) := subject_found name d in
  settle (insert_book_subject b_id s_id d1) d1.

Fixpoint run_steps {A} (step : A → database → result unit * database)
    (xs : list A) (d : database) : result unit * database :=
  match xs with
  | [] => (Ok (), d)
  | x :: xs' =>
      match step x d with
      | (Ok _, d1) => run_steps step xs' d1
      | (Raise e, d1) => (Raise e, d1)
      end
  end.

(** The identity [save] takes for the book, on a fresh connection. *)
Definition book_step (self : Book.t) (d : database) : result Z * database :=
  match lookup_book_id (Book.isbn self) d with
  | Some b_id => (Ok b_id, d)
  | None =>
      match insert_book (Book.url self) (Book.isbn self) (Book.title self)
              (Book.subtitle self) (Book.cover_url self) d with
      | Failed e => (Raise e, d)
      | Inserted d' rowid => (Ok rowid, d')
      | _ => (Ok 0%Z, d)
      end
  end.

Definition save_summary (self : Book.t) (d : database) : result unit * database :=
  match book_step self d with
  | (Raise e, d1) => (Raise e, d1)
  | (Ok b_id, d1) =>
      match run_steps (author_step b_id) (Book.authors self) d1 with
      | (Raise e, d2) => (Raise e, d2)
      | (Ok _, d2) => run_steps (subject_step b_id) (elements (Book.subjects self)) d2
      end
  end.

Definition from_db_summary (isbn : string) (d : database) : result Book.t :=
  match head (filter (λ b, book_isbn b = isbn) (book d)) with
  | None => Raise (BookNotInDatabaseError isbn)
  | Some row =>
      Ok (Book.new (book_url row) (book_isbn row) (book_title row) (book_subtitle row)
            ((λ r, Author.new r.1 r.2) <$> authors_of_book (book_id row) d)
            (list_to_set (subjects_of_book (book_id row) d))
            (book_cover_url row))
  end.

(** * Hoare triples *)

(** [m], started where [pre] holds, ends where [post] holds of its value
    or raises where [exc] holds of its exception: whatever the engine
    fails. *)
Definition hoare {A} (pre : connection → Prop) (m : M A)
    (post : A → connection → Prop) (exc : exn → connection → Prop) : Prop :=
  ∀ c, pre c →
    match m c with
    | (Ok x, c') => post x c'
    | (Raise e, c') => exc e c'
    end.

(** [c'] shows the tables and the transaction of [c]. *)
Definition same_tables (c c' : connection) : Prop :=
  store c' = store c ∧ undo c' = undo c ∧ last_insert_rowid c' = last_insert_rowid c.

(** The loops of [save] leave the book table as it is. *)
Definition book_table (rows : list book_row) (c : connection) : Prop :=
  book (store c) = rows.

Definition no_foreign_key_failure (rows : list book_row) (e : exn) (c : connection) : Prop :=
  book_table rows c ∧ e ≠ IntegrityError ForeignKeyViolation.

(** * What the loops of [save] establish *)

(** [d'] is [d] after more rows were appended by the loops, which leave
    the book table alone. *)
Definition extends (d d' : database) : Prop :=
  book d' = book d ∧
  author d `prefix_of` author d' ∧
  subject d `prefix_of` subject d' ∧
  book_author d `prefix_of` book_author d' ∧
  book_subject d `prefix_of` book_subject d'.

(** The author has a row, and the row found for the url is linked to
    the book. *)
Definition author_settled (b_id : Z) (d : database) (a : Author.t) : Prop :=
  ∃ a_id, lookup_author_id (Author.url a) d = Some a_id ∧ (b_id, a_id) ∈ book_author d.

Definition subject_settled (b_id : Z) (d : database) (name : string) : Prop :=
  ∃ s_id, lookup_subject_id name d = Some s_id ∧ (b_id, s_id) ∈ book_subject d.

(** The join of a link table with the table it points to, of which
    [authors_of_book] and [subjects_of_book] are instances. *)
Definition join {R V} (rid : R → Z) (val : R → V) (b_id : Z)
    (links : list (Z * Z)) (table : list R) : list V :=
  l ← filter (λ l, l.1 = b_id) links;
  r ← filter (λ r, rid r = l.2) table;
  [val r].

(** * Sample books *)

(** The book of the specification's scenario. *)
Definition sample_author : Author.t := Author.new "https://ol/a1" "A. Author".

Definition sample_book : Book.t :=
  Book.new "https://ol/b1" "9780226550275" "T" None [sample_author] {["Economics"]} None.

(** Another book by the same author on the same subject. *)
Definition second_book : Book.t :=
  Book.new "https://ol/b2" "9780140449136" "U" (Some "S") [sample_author]
    {["Economics"]} None.

(** A book with the url of [sample_book] and another isbn. *)
Definition url_rival : Book.t :=
  Book.new "https://ol/b1" "9780140449136" "U" None [sample_author] {["Economics"]} None.

(** A new book whose author is stored under another name. *)
Definition renamed_author_book : Book.t :=
  Book.new "https://ol/b3" "9780131103627" "V" None
    [Author.new "https://ol/a1" "Author, A."] {["Economics"]} None.

(** A remote service that cannot be reached: [httpx.get] raises. *)
Definition unreachable_service {Record_ : Type} : string → result (@response Record_) :=
  λ _, Raise (OtherError "httpx.ConnectError").

(** * library.py: building a book from the service's record *)

Module OpenLibrary.

#[global] Instance result_ret : MRet result := λ A x, Ok x.
#[global] Instance result_bind : MBind result := λ A B k r,
  match r with
  | Ok x => k x
  | Raise e => Raise e
  end.

(** What [from_openlibrary] reads of the dictionary the service returns
    for a key: any of the keys may be missing; the values present have
    the types the service documents. *)
Record author_entry : Type := AuthorEntry {
  entry_url : option string;
  entry_name : option string }.

Record subject_entry : Type := SubjectEntry {
  entry_subject_name : option string }.

Record book_data : Type := BookData {
  data_url : option string;
  data_title : option string;
  data_subtitle : option string;
  data_authors : option (list author_entry);
  data_subjects : option (list subject_entry);
  data_cover : option (gmap string string) }.

(** [d[key]] on a dictionary *)
Definition item {A} (key : string) (value : option A) : result A :=
  match value with
  | Some x => Ok x
  | None => Raise (KeyError key)
  end.

(** [[f(x) for x in xs]] *)
Fixpoint comprehension {A B} (f : A → result B) (xs : list A) : result (list B) :=
  match xs with
  | [] => Ok []
  | x :: xs' => y ← f x; ys ← comprehension f xs'; Ok (y :: ys)
  end.

Definition author_of_entry (a : author_entry) : result Author.t :=
  url ← item "url" (entry_url a);
  name ← item "name" (entry_name a);
  Ok (Author.new url name).

(** The body of [from_openlibrary] after the fetch. *)
Definition book_of_data (isbn : Isbn) (book : book_data) : result Book.t :=
  covers ← item "cover" (data_cover book);
  url ← item "url" (data_url book);
  title ← item "title" (data_title book);
  authors ← (entries ← item "authors" (data_authors book);
             comprehension author_of_entry entries);
  subjects ← (entries ← item "subjects" (data_subjects book);
              comprehension (λ s, item "name" (entry_subject_name s)) entries);
  Ok (Book.new url (canonical isbn) title (data_subtitle book) authors
        (list_to_set subjects) (covers !! "large")).

(** The lines printed and the outcome of [Book.from_openlibrary]. *)
Definition from_openlibrary (httpx_get : string → result (@response book_data))
    (isbn : Isbn) : list printed * result Book.t :=
  let (out, fetched) := fetch_openlibrary_book httpx_get isbn in
  (out, fetched ≫= book_of_data isbn).

End OpenLibrary.
Export OpenLibrary.

(** * main.py: what the capture loop does with a recognised text *)

Module Main.

Record state : Type := State {
  FOUND_ISBN : gset string;
  DB_FILE : database }.

Definition newline : string := String (ascii_of_nat 10) EmptyString.
Definition tab : string := String (ascii_of_nat 9) EmptyString.

Definition book_str (book : Book.t) : string :=
  Book.title book +:+ " by " +:+
  String.concat ", " (Author.name <$> Book.authors book) +:+
  newline +:+ tab +:+ "isbn: " +:+ Book.isbn book +:+ newline.

Section Loop.

Context (get_isbnlike : string → list string) (Isbn_new : string → result Isbn)
  (httpx_get : string → result (@response book_data)).

(** The body of the loop from [isbn = find_isbn(text)] on, for the text
    of one frame: the outcome, the lines printed and the state after.  An
    [Isbn] object counts as true. *)
Definition on_text (text : string) (failing : option nat) (s : state)
    : result unit * list printed * state :=
  match find_isbn get_isbnlike Isbn_new text with
  | Raise e => (Raise e, [], s)
  | Ok None => (Ok (), [], s)
  | Ok (Some isbn) =>
      if bool_decide (canonical isbn ∈ FOUND_ISBN s) then (Ok (), [], s)
      else
        match from_openlibrary httpx_get isbn with
        | (out, Raise e) => (Raise e, out, s)
        | (out, Ok book) =>
            let line := PrintStr ("fetched book: " +:+ book_str book) in
            let found := {[canonical isbn]} ∪ FOUND_ISBN s in
            let (r, db) := Book.save book failing (DB_FILE s) in
            (r, out ++ [line], State found db)
        end
  end.

End Loop.

End Main.
Export Main.

(** * database.py: where the database file is *)

Section Bootstrap.

(** [pathlib]: the home directory, [Path(s)] and [p / q]. *)
Context {Path : Type} (home : Path) (path : string → Path) (joinpath : Path → Path → Path).

(** The path [create_db_if_needed] computes from [os.environ]. *)
Definition db_file_of (environ : gmap string string) : Path :=
  let xdg_data_home :=
    match environ !! "XDG_DATA_HOME" with
    | Some (String _ _ as xdg) => path xdg
    | _ => home
    end in
  match environ !! "OL_OCR_DB" with
  | Some (String _ _ as ol_ocr_db) => joinpath xdg_data_home (path ol_ocr_db)
  | _ => joinpath xdg_data_home (path "ol_ocr.db")
  end.

End Bootstrap.

(** * More properties of connections and stores *)

(** [m] leaves the transaction state alone. *)
Definition steady {A} (m : M A) : Prop := ∀ c, undo (m c).2 = undo c.

(** Every table of [d] is the beginning of the same table of [d']. *)
Definition grows (d d' : database) : Prop :=
  book d `prefix_of` book d' ∧
  author d `prefix_of` author d' ∧
  subject d `prefix_of` subject d' ∧
  book_author d `prefix_of` book_author d' ∧
  book_subject d `prefix_of` book_subject d'.

(** The exceptions of the storage layer that [save] lets through. *)
Definition store_error (e : exn) : Prop :=
  (∃ st, e = OperationalError st) ∨ e = IntegrityError ForeignKeyViolation.

(** The url of the book belongs to a row with another isbn. *)
Definition url_taken (self : Book.t) (d : database) : Prop :=
  (Book.isbn self ∉ book_isbn <$> book d) ∧ (Book.url self ∈ book_url <$> book d).

(** The dictionary that holds a book: every key [from_openlibrary] reads,
    the cover under [large] when the book has one. *)
Definition data_of_book (b : Book.t) : book_data :=
  BookData (Some (Book.url b)) (Some (Book.title b)) (Book.subtitle b)
    (Some ((λ a, AuthorEntry (Some (Author.url a)) (Some (Author.name a))) <$>
           Book.authors b))
    (Some ((λ name, SubjectEntry (Some name)) <$> elements (Book.subjects b)))
    (Some (match Book.cover_url b with
           | Some large => {["large" := large]}
           | None => ∅
           end)).

(** A service that answers every request with one record. *)
Definition sample_data : book_data :=
  BookData (Some "https://ol/b1") (Some "T") None
    (Some [AuthorEntry (Some "https://ol/a1") (Some "A. Author")])
    (Some [SubjectEntry (Some "Economics"); SubjectEntry (Some "Economics")])
    (Some {["large" := "https://covers/b1-L.jpg"]}).

Definition sample_service : string → result (@response book_data) :=
  λ _, Ok (Response 200 [] (Ok {["ISBN:9780226550275" := sample_data]})).

(** * The transactional scope *)

Lemma issue_issued st c : issued (issue st c).2 = issued c ++ [st].
Proof. unfold issue. by destruct (faults c) as [[|n]|]. Qed.

Lemma begin_issued c : issued (begin c).2 = issued c ++ [Begin].
Proof.
  unfold begin, mbind, M_bind. pose proof (issue_issued Begin c) as Hlog.
  destruct (issue Begin c) as [[[]|e] c1]; simpl in *; [|done].
  by destruct (undo c1).
Qed.

(** C8: the scope first issues BEGIN; when BEGIN is refused its failure
    leaves the scope; otherwise a body that completes is followed by
    COMMIT and its value is returned, and a body that raises is followed
    by ROLLBACK and the same exception is raised again. *)
Theorem transaction_scope {A} (body : M A) (c : connection) :
  issued (begin c).2 = issued c ++ [Begin] ∧
  match (begin c).1 with
  | Raise e => transaction body c = (Raise e, (begin c).2)
  | Ok _ =>
      match body (begin c).2 with
      | (Ok x, c2) =>
          transaction body c = (Ok x, (commit c2).2) ∧
          issued (commit c2).2 = issued c2 ++ [Commit] ∧
          store (commit c2).2 = store c2
      | (Raise e, c2) =>
          transaction body c = (Raise e, (rollback c2).2) ∧
          issued (rollback c2).2 = issued c2 ++ [Rollback] ∧
          store (rollback c2).2 = default (store c2) (undo c2)
      end
  end.
Proof.
  split; [apply begin_issued|].
  unfold transaction, mbind, M_bind.
  destruct (begin c) as [[[]|e] c1]; simpl; [|done].
  unfold try_except_else.
  destruct (body c1) as [[x|e] c2]; by repeat split.
Qed.

(** * The metadata fetcher *)

Section FetchFacts.
Context {Record_ : Type} (httpx_get : string → result (@response Record_)).

(** With a response at hand, a failure of the body is printed with the
    key, the url, the status and the headers, and raised unchanged. *)
Lemma fetch_failure_with_response isbn resp e :
  fetch_attempt httpx_get (bibkey isbn) (request_url (bibkey isbn)) = (Some resp, Raise e) →
  fetch_openlibrary_book httpx_get isbn =
    ([PrintStr (bibkey isbn); PrintStr (request_url (bibkey isbn));
      PrintInt (status_code resp); PrintHeaders (headers resp)], Raise e).
Proof. unfold fetch_openlibrary_book. by intros ->. Qed.

(** When [httpx.get] itself raises, [resp] is unbound in the handler. *)
Lemma fetch_failure_without_response isbn e :
  httpx_get (request_url (bibkey isbn)) = Raise e →
  fetch_openlibrary_book httpx_get isbn =
    ([PrintStr (bibkey isbn); PrintStr (request_url (bibkey isbn))],
     Raise (UnboundLocalError "resp")).
Proof. unfold fetch_openlibrary_book, fetch_attempt. by intros ->. Qed.

End FetchFacts.

(** C9: when the request itself fails, the call prints the key and the
    url and raises [UnboundLocalError], not the failure of the request. *)
Theorem fetch_unreachable_service (Record_ : Type) :
  fetch_openlibrary_book (@unreachable_service Record_) {| canonical := "9780226550275" |} =
    ([PrintStr "ISBN:9780226550275";
      PrintStr "https://openlibrary.org/api/books?bibkeys=ISBN:9780226550275&format=json&jscmd=data"],
     Raise (UnboundLocalError "resp")).
Proof. reflexivity. Qed.

(** * The identifier resolver *)

(** C7: [find_isbn] looks at the first candidate only; it returns the
    [Isbn] built from it when the constructor accepts it, and [None] when
    there is no candidate or the constructor rejects the first one; it
    never raises, the constructor raising nothing but
    [NotValidISBNError]. *)
Theorem find_isbn_first_match (get_isbnlike : string → list string)
    (Isbn_new : string → result Isbn)
    (only_not_valid : ∀ s e, Isbn_new s = Raise e → ∃ m, e = NotValidISBNError m)
    (text : string) :
  match get_isbnlike text with
  | [] => find_isbn get_isbnlike Isbn_new text = Ok None
  | isbnlike :: _ =>
      match Isbn_new isbnlike with
      | Ok isbn => find_isbn get_isbnlike Isbn_new text = Ok (Some isbn)
      | Raise _ => find_isbn get_isbnlike Isbn_new text = Ok None
      end
  end ∧ ¬ raised (find_isbn get_isbnlike Isbn_new text).
Proof.
  unfold find_isbn. destruct (get_isbnlike text) as [|m rest]; simpl; [tauto|].
  destruct (Isbn_new m) as [i|e] eqn:Hnew; simpl; [tauto|].
  destruct (only_not_valid _ _ Hnew) as [m' ->]. simpl. tauto.
Qed.

Lemma sample_Isbn_new_only_not_valid s e :
  sample_Isbn_new s = Raise e → ∃ m, e = NotValidISBNError m.
Proof. unfold sample_Isbn_new. case_bool_decide; naive_solver. Qed.

Lemma find_isbn_first_match_witness :
  find_isbn sample_get_isbnlike sample_Isbn_new "978-0-226-55027-5 or 12345" =
    Ok (Some {| canonical := "9780226550275" |}) ∧
  find_isbn sample_get_isbnlike sample_Isbn_new "12345 978-0-226-55027-5" = Ok None.
Proof.
  pose proof (find_isbn_first_match sample_get_isbnlike sample_Isbn_new
                sample_Isbn_new_only_not_valid) as H.
  split.
  - exact (proj1 (H "978-0-226-55027-5 or 12345")).
  - exact (proj1 (H "12345 978-0-226-55027-5")).
Defined.

(** * Invariants kept by the code, whatever the engine fails *)

Section Keeps.
Context (P : database → Prop).

Lemma keeps_ret {A} (x : A) : keeps P (mret x).
Proof. by intros c. Qed.

Lemma keeps_raise {A} e : keeps P (@raise A e).
Proof. by intros c. Qed.

Lemma keeps_bind {A B} (m : M A) (k : A → M B) :
  keeps P m → (∀ x, keeps P (k x)) → keeps P (m ≫= k).
Proof.
  intros Hm Hk c Hc. specialize (Hm c Hc). unfold mbind, M_bind.
  destruct (m c) as [[x|e] c1]; simpl in *; [by apply Hk|done].
Qed.

Lemma keeps_finally {A} (body : M A) cleanup :
  keeps P body → keeps P cleanup → keeps P (finally body cleanup).
Proof.
  intros Hb Hf c Hc. specialize (Hb c Hc). unfold finally.
  destruct (body c) as [r c1]; simpl in *. specialize (Hf c1 Hb).
  by destruct (cleanup c1) as [[[]|e] c2].
Qed.

Lemma keeps_try_except_else {A} (body : M A) handler otherwise :
  keeps P body → keeps P handler → keeps P otherwise →
  keeps P (try_except_else body handler otherwise).
Proof.
  intros Hb Hh Ho c Hc. specialize (Hb c Hc). unfold try_except_else.
  destruct (body c) as [[x|e] c1]; simpl in *.
  - by apply (keeps_bind otherwise (λ _, mret x)); [|intros; apply keeps_ret|].
  - by apply (keeps_bind handler (λ _, raise e)); [|intros; apply keeps_raise|].
Qed.

Lemma keeps_for_each {A} (xs : list A) body :
  (∀ x, keeps P (body x)) → keeps P (for_each xs body).
Proof.
  intros Hb. induction xs as [|x xs IH]; simpl; [apply keeps_ret|].
  by apply keeps_bind.
Qed.

Lemma keeps_issue st : keeps P (issue st).
Proof. intros c Hc. unfold issue. by destruct (faults c) as [[|n]|]. Qed.

Lemma keeps_perform st :
  (∀ d d' rowid, P d → run st d = Inserted d' rowid → P d') →
  keeps P (perform st).
Proof.
  intros Hins c [Hs Hu]. unfold perform.
  destruct (run st (store c)) eqn:Hrun; simpl; try done.
  split; [by eapply Hins|done].
Qed.

Lemma keeps_execute st :
  (∀ d d' rowid, P d → run st d = Inserted d' rowid → P d') →
  keeps P (execute st).
Proof.
  intros Hins. apply keeps_bind; [apply keeps_issue|].
  intros _. by apply keeps_perform.
Qed.

Lemma keeps_begin : keeps P begin.
Proof.
  apply keeps_bind; [apply keeps_issue|]. intros _ c [Hs Hu].
  unfold sound. destruct (undo c) eqn:E; simpl; rewrite ?E; by simpl.
Qed.

Lemma keeps_commit : keeps P commit.
Proof. by intros c [Hs Hu]. Qed.

Lemma keeps_rollback : keeps P rollback.
Proof. intros c [Hs Hu]. split; [|done]. simpl. by destruct (undo c). Qed.

Lemma keeps_transaction {A} (body : M A) : keeps P body → keeps P (transaction body).
Proof.
  intros Hb. apply keeps_bind; [apply keeps_begin|]. intros _.
  apply keeps_try_except_else; [done|apply keeps_rollback|apply keeps_commit].
Qed.

Lemma run_pragma_not_inserted setting d d' rowid :
  run (Pragma setting) d = Inserted d' rowid → False.
Proof. done. Qed.

Lemma keeps_pragma setting : keeps P (execute (Pragma setting)).
Proof. apply keeps_execute. intros d d' r _ H. by destruct (run_pragma_not_inserted _ _ _ _ H). Qed.

Lemma keeps_session {A} (body : M A) : keeps P body → keeps P (session body).
Proof.
  intros Hb. unfold session.
  repeat (apply keeps_bind; [apply keeps_pragma|intros _]).
  apply keeps_finally; [done|].
  repeat (apply keeps_bind; [apply keeps_pragma|intros _]).
  apply keeps_ret.
Qed.

Lemma db_conn_keeps {A} (body : M A) d failing :
  keeps P body → P d → P (db_conn d failing body).2.
Proof.
  intros Hb Hd. unfold db_conn.
  pose proof (keeps_session body Hb (connect d failing)) as Hs.
  destruct (session body (connect d failing)) as [r c]; simpl in *.
  destruct Hs as [Hs Hu]; [by split|].
  unfold close. by destruct (undo c).
Qed.

End Keeps.

(** * Rules for runs in which the engine fails nothing *)

Lemma execute_quiet st c :
  faults c = None →
  execute st c =
    perform st (Connection (store c) (undo c) (last_insert_rowid c) (issued c ++ [st]) None).
Proof. intros H. unfold execute, issue, mbind, M_bind. by rewrite H. Qed.

Lemma quietly_ret {A} (x : A) c : faults c = None → quietly (mret x) c (Ok x) (store c).
Proof. by intros H. Qed.

Lemma quietly_raise {A} e c : faults c = None → quietly (@raise A e) c (Raise e) (store c).
Proof. by intros H. Qed.

Lemma quietly_bind {A B} (m : M A) (k : A → M B) c x d1 r d2 :
  quietly m c (Ok x) d1 →
  (∀ c1, store c1 = d1 → undo c1 = undo c → faults c1 = None → quietly (k x) c1 r d2) →
  quietly (m ≫= k) c r d2.
Proof.
  intros (Hr & Hs & Hu & Hf) Hk. unfold quietly, mbind, M_bind.
  destruct (m c) as [r1 c1]; simpl in *. subst r1.
  destruct (Hk c1 Hs Hu Hf) as (? & ? & ? & ?). repeat split; congruence.
Qed.

Lemma quietly_bind_raise {A B} (m : M A) (k : A → M B) c e d1 :
  quietly m c (Raise e) d1 → quietly (m ≫= k) c (Raise e) d1.
Proof.
  intros (Hr & Hs & Hu & Hf). unfold quietly, mbind, M_bind.
  destruct (m c) as [r1 c1]; simpl in *. by subst r1.
Qed.

Lemma quietly_execute st c :
  faults c = None →
  match run st (store c) with
  | Failed e => quietly (execute st) c (Raise e) (store c)
  | Rows rs => quietly (execute st) c (Ok (Cursor rs (last_insert_rowid c))) (store c)
  | Inserted d rowid => quietly (execute st) c (Ok (Cursor [] rowid)) d
  | Ignored => quietly (execute st) c (Ok (Cursor [] (last_insert_rowid c))) (store c)
  end.
Proof.
  intros H. unfold quietly. rewrite (execute_quiet _ _ H). unfold perform. simpl.
  by destruct (run st (store c)).
Qed.

Lemma quietly_for_each {A} (step : A → database → result unit * database)
    (body : A → M unit) (xs : list A) c :
  (∀ x c1, faults c1 = None → quietly (body x) c1 (step x (store c1)).1 (step x (store c1)).2) →
  faults c = None →
  quietly (for_each xs body) c (run_steps step xs (store c)).1 (run_steps step xs (store c)).2.
Proof.
  intros Hb. revert c. induction xs as [|x xs IH]; intros c Hc; simpl.
  { by apply quietly_ret. }
  specialize (Hb x c Hc). destruct (step x (store c)) as [[[]|e] d1]; simpl in *.
  - eapply quietly_bind; [done|]. intros c1 Hs Hu Hf.
    specialize (IH c1 Hf). rewrite Hs in IH. destruct IH as (?&?&?&?).
    repeat split; congruence.
  - by apply quietly_bind_raise.
Qed.

Lemma pragma_quiet setting c :
  faults c = None →
  execute (Pragma setting) c =
    (Ok (Cursor [] (last_insert_rowid c)),
     Connection (store c) (undo c) (last_insert_rowid c) (issued c ++ [Pragma setting]) None).
Proof. intros H. by rewrite execute_quiet. Qed.

Lemma session_quiet {A} (body : M A) c r d' :
  faults c = None →
  (∀ c1, store c1 = store c → undo c1 = undo c → faults c1 = None →
         last_insert_rowid c1 = last_insert_rowid c → quietly body c1 r d') →
  quietly (session body) c r d'.
Proof.
  intros Hc Hb. unfold session, quietly, mbind, M_bind, finally.
  repeat (rewrite pragma_quiet by done; simpl).
  match goal with |- context [body ?c0] => destruct (Hb c0) as (Hr & Hs & Hu & Hf); try done;
    destruct (body c0) as [r1 c1] end.
  simpl in *. repeat (rewrite pragma_quiet by done; simpl). by subst.
Qed.

Lemma db_conn_quiet {A} (body : M A) d r d' :
  (∀ c, store c = d → undo c = None → faults c = None → last_insert_rowid c = 0%Z →
        quietly body c r d') →
  db_conn d None body = (r, d').
Proof.
  intros Hb. unfold db_conn.
  destruct (session_quiet body (connect d None) r d') as (Hr & Hs & Hu & Hf); [done| |].
  { intros c1 ????. by apply Hb. }
  destruct (session body (connect d None)) as [r1 c1]; simpl in *.
  unfold close. rewrite Hu. simpl. by subst.
Qed.

(** * Loading *)

Lemma from_db_body_quiet isbn c :
  faults c = None →
  quietly (Book.from_db_body isbn) c (from_db_summary isbn (store c)) (store c).
Proof.
  intros Hc. unfold Book.from_db_body, from_db_summary.
  eapply quietly_bind; [apply (quietly_execute (SelectBookByIsbn isbn) c Hc)|].
  intros c1 Hs1 Hu1 Hf1. unfold fetchone. simpl.
  destruct (filter _ (book (store c))) as [|row rest]; simpl.
  { rewrite <- Hs1. destruct (quietly_raise (A := Book.t) (BookNotInDatabaseError isbn) c1 Hf1)
      as (?&?&?&?). repeat split; congruence. }
  eapply quietly_bind.
  { pose proof (quietly_execute (SelectAuthorsOfBook (book_id row)) c1 Hf1) as H.
    simpl in H. rewrite Hs1 in H. exact H. }
  intros c2 Hs2 Hu2 Hf2. eapply quietly_bind.
  { pose proof (quietly_execute (SelectSubjectsOfBook (book_id row)) c2 Hf2) as H.
    simpl in H. rewrite Hs2 in H. exact H. }
  intros c3 Hs3 Hu3 Hf3. simpl.
  destruct (quietly_ret (A := Book.t)
    (Book.new (book_url row) (book_isbn row) (book_title row) (book_subtitle row)
       ((λ r, Author.new r.1 r.2) <$> authors_of_book (book_id row) (store c))
       (list_to_set (subjects_of_book (book_id row) (store c))) (book_cover_url row))
    c3 Hf3) as (?&?&?&?).
  repeat split; congruence.
Qed.

Lemma from_db_quiet isbn d :
  Book.from_db isbn None d = (from_db_summary (Book.canonical_of isbn) d, d).
Proof.
  unfold Book.from_db. apply db_conn_quiet. intros c Hs Hu Hf _.
  pose proof (from_db_body_quiet (Book.canonical_of isbn) c Hf) as H.
  by rewrite Hs in H.
Qed.

Lemma from_db_body_keeps P isbn : keeps P (Book.from_db_body isbn).
Proof.
  unfold Book.from_db_body.
  apply keeps_bind; [by apply (keeps_execute P (SelectBookByIsbn isbn))|]. intros cur.
  destruct (fetchone cur) as [row|]; [|apply keeps_raise].
  apply keeps_bind; [by apply (keeps_execute P (SelectAuthorsOfBook _))|]. intros cur1.
  apply keeps_bind; [by apply (keeps_execute P (SelectSubjectsOfBook _))|]. intros cur2.
  apply keeps_ret.
Qed.

Lemma from_db_readonly isbn failing d : (Book.from_db isbn failing d).2 = d.
Proof.
  unfold Book.from_db.
  by apply (db_conn_keeps (λ d', d' = d)); [apply from_db_body_keeps|].
Qed.

(** C6: [from_db] leaves the file as it was, whatever the engine fails;
    for an isbn that no book row carries it raises
    [BookNotInDatabaseError] with that isbn. *)
Theorem from_db_missing (isbn : Book.isbn_like) (DB_FILE : database) :
  (∀ failing, (Book.from_db isbn failing DB_FILE).2 = DB_FILE) ∧
  (Book.canonical_of isbn ∉ book_isbn <$> book DB_FILE →
   (Book.from_db isbn None DB_FILE).1 =
     Raise (BookNotInDatabaseError (Book.canonical_of isbn))).
Proof.
  split.
  - intros failing. apply from_db_readonly.
  - intros Hnew. rewrite from_db_quiet. simpl. unfold from_db_summary.
    destruct (filter _ (book DB_FILE)) as [|row rest] eqn:Hf; [done|].
    exfalso. apply Hnew.
    assert (row ∈ filter (λ b, book_isbn b = Book.canonical_of isbn) (book DB_FILE)) as Hin
      by (rewrite Hf; left).
    apply list_elem_of_filter in Hin as [<- Hin]. by apply list_elem_of_fmap_2.
Qed.

Lemma from_db_missing_witness :
  (Book.from_db (Book.IsbnStr "9999999999999") (Some 5%nat) empty).2 = empty ∧
  (Book.from_db (Book.IsbnStr "9999999999999") None empty).1 =
    Raise (BookNotInDatabaseError "9999999999999").
Proof.
  destruct (from_db_missing (Book.IsbnStr "9999999999999") empty) as [Hro Hnf].
  split; [apply Hro|]. apply Hnf. simpl. apply not_elem_of_nil.
Defined.

(** * Saving, when the engine fails nothing *)

Lemma head_fmap_filter_None {A B} (f : A → B) (P : A → Prop) `{!∀ x, Decision (P x)}
    (l : list A) :
  head (f <$> filter P l) = None → ∀ x, x ∈ l → ¬ P x.
Proof.
  intros Hhead x Hx HP.
  assert (x ∈ filter P l) as Hin by (by apply list_elem_of_filter).
  destruct (filter P l); [by apply elem_of_nil in Hin|done].
Qed.

Lemma lookup_author_id_None url d :
  lookup_author_id url d = None → url ∉ author_url <$> author d.
Proof.
  intros H Hin. apply list_elem_of_fmap in Hin as (row & -> & Hrow).
  by eapply (head_fmap_filter_None author_id) in H.
Qed.

Lemma lookup_subject_id_None name d :
  lookup_subject_id name d = None → name ∉ sub_name <$> subject d.
Proof.
  intros H Hin. apply list_elem_of_fmap in Hin as (row & -> & Hrow).
  by eapply (head_fmap_filter_None subject_id) in H.
Qed.

Lemma lookup_book_id_None isbn d :
  lookup_book_id isbn d = None → isbn ∉ book_isbn <$> book d.
Proof.
  intros H Hin. apply list_elem_of_fmap in Hin as (row & -> & Hrow).
  by eapply (head_fmap_filter_None book_id) in H.
Qed.

Lemma insert_author_new url name d :
  url ∉ author_url <$> author d →
  insert_author url name d =
    Inserted (Database (book d) (author d ++ [AuthorRow (next_rowid (author_ids d)) url name])
                (subject d) (book_author d) (book_subject d))
             (next_rowid (author_ids d)).
Proof. intros H. unfold insert_author. by rewrite bool_decide_eq_false_2. Qed.

Lemma insert_subject_new name d :
  name ∉ sub_name <$> subject d →
  insert_subject name d =
    Inserted (Database (book d) (author d)
                (subject d ++ [SubjectRow (next_rowid (subject_ids d)) name])
                (book_author d) (book_subject d))
             (next_rowid (subject_ids d)).
Proof. intros H. unfold insert_subject. by rewrite bool_decide_eq_false_2. Qed.

Lemma find_or_create_author_quiet a c :
  faults c = None →
  quietly (Book.find_or_create_author a) c
    (Ok (author_found a (store c)).1) (author_found a (store c)).2.
Proof.
  intros Hc. unfold Book.find_or_create_author, author_found.
  eapply quietly_bind; [apply (quietly_execute (SelectAuthorIdByUrl (Author.url a)) c Hc)|].
  intros c1 Hs1 Hu1 Hf1. unfold fetchone. simpl.
  fold (lookup_author_id (Author.url a) (store c)).
  destruct (lookup_author_id (Author.url a) (store c)) as [a_id|] eqn:Hlook; simpl.
  { rewrite <- Hs1. by apply quietly_ret. }
  rewrite (insert_author_new _ _ _ (lookup_author_id_None _ _ Hlook)). simpl.
  eapply quietly_bind.
  { pose proof (quietly_execute (InsertAuthor (Author.url a) (Author.name a)) c1 Hf1) as H.
    simpl in H. rewrite Hs1, (insert_author_new _ _ _ (lookup_author_id_None _ _ Hlook)) in H.
    exact H. }
  intros c2 Hs2 Hu2 Hf2. simpl. rewrite <- Hs2. by apply quietly_ret.
Qed.

Lemma find_or_create_subject_quiet name c :
  faults c = None →
  quietly (Book.find_or_create_subject name) c
    (Ok (subject_found name (store c)).1) (subject_found name (store c)).2.
Proof.
  intros Hc. unfold Book.find_or_create_subject, subject_found.
  eapply quietly_bind; [apply (quietly_execute (SelectSubjectIdByName name) c Hc)|].
  intros c1 Hs1 Hu1 Hf1. unfold fetchone. simpl.
  fold (lookup_subject_id name (store c)).
  destruct (lookup_subject_id name (store c)) as [s_id|] eqn:Hlook; simpl.
  { rewrite <- Hs1. by apply quietly_ret. }
  rewrite (insert_subject_new _ _ (lookup_subject_id_None _ _ Hlook)). simpl.
  eapply quietly_bind.
  { pose proof (quietly_execute (InsertSubject name) c1 Hf1) as H.
    simpl in H. rewrite Hs1, (insert_subject_new _ _ (lookup_subject_id_None _ _ Hlook)) in H.
    exact H. }
  intros c2 Hs2 Hu2 Hf2. simpl. rewrite <- Hs2. by apply quietly_ret.
Qed.

Lemma quietly_settle (st : statement) (o : outcome (row_type st)) c :
  faults c = None → run st (store c) = o →
  quietly (execute st;; mret ()) c (settle o (store c)).1 (settle o (store c)).2.
Proof.
  intros Hc Ho. pose proof (quietly_execute st c Hc) as H. rewrite Ho in H.
  destruct o; simpl.
  - by apply quietly_bind_raise.
  - eapply quietly_bind; [done|]. intros c1 <- _ ?. by apply quietly_ret.
  - eapply quietly_bind; [done|]. intros c1 <- _ ?. by apply quietly_ret.
  - eapply quietly_bind; [done|]. intros c1 <- _ ?. by apply quietly_ret.
Qed.

Lemma save_author_quiet b_id a c :
  faults c = None →
  quietly (Book.save_author b_id a) c
    (author_step b_id a (store c)).1 (author_step b_id a (store c)).2.
Proof.
  intros Hc. unfold Book.save_author, author_step.
  pose proof (find_or_create_author_quiet a c Hc) as Hfind.
  destruct (author_found a (store c)) as [a_id d1]. simpl in Hfind.
  eapply quietly_bind; [done|]. intros c1 Hs1 Hu1 Hf1.
  pose proof (quietly_settle (InsertBookAuthor b_id a_id) _ c1 Hf1 eq_refl) as H.
  simpl in H. rewrite Hs1 in H. exact H.
Qed.

Lemma save_subject_quiet b_id name c :
  faults c = None →
  quietly (Book.save_subject b_id name) c
    (subject_step b_id name (store c)).1 (subject_step b_id name (store c)).2.
Proof.
  intros Hc. unfold Book.save_subject, subject_step.
  pose proof (find_or_create_subject_quiet name c Hc) as Hfind.
  destruct (subject_found name (store c)) as [s_id d1]. simpl in Hfind.
  eapply quietly_bind; [done|]. intros c1 Hs1 Hu1 Hf1.
  pose proof (quietly_settle (InsertBookSubject b_id s_id) _ c1 Hf1 eq_refl) as H.
  simpl in H. rewrite Hs1 in H. exact H.
Qed.

Lemma save_book_quiet self c :
  faults c = None → undo c = None → last_insert_rowid c = 0%Z →
  quietly (Book.save_book self) c (book_step self (store c)).1 (book_step self (store c)).2.
Proof.
  intros Hf Hu Hl. unfold Book.save_book, book_step, quietly, mbind, M_bind.
  rewrite (execute_quiet _ _ Hf). unfold perform at 1. simpl.
  unfold fetchone. simpl. fold (lookup_book_id (Book.isbn self) (store c)).
  destruct (lookup_book_id (Book.isbn self) (store c)) as [b_id|] eqn:Hlook; simpl.
  { by rewrite Hu. }
  unfold transaction, begin, try_except_else, mbind, M_bind, issue. simpl. rewrite Hu. simpl.
  rewrite execute_quiet by done. unfold perform. simpl.
  destruct (insert_book _ _ _ _ _ (store c)) as [e|?|d' rowid|]; simpl; by rewrite ?Hl.
Qed.

Lemma save_body_quiet self c :
  faults c = None → undo c = None → last_insert_rowid c = 0%Z →
  quietly (Book.save_body self) c (save_summary self (store c)).1 (save_summary self (store c)).2.
Proof.
  intros Hf Hu Hl. unfold Book.save_body, save_summary.
  pose proof (save_book_quiet self c Hf Hu Hl) as Hbook.
  destruct (book_step self (store c)) as [[b_id|e] d1]; simpl in *;
    [|by apply quietly_bind_raise].
  eapply quietly_bind; [done|]. intros c1 Hs1 Hu1 Hf1.
  pose proof (quietly_for_each (author_step b_id) (Book.save_author b_id)
                (Book.authors self) c1 (save_author_quiet b_id) Hf1) as Hauthors.
  rewrite Hs1 in Hauthors.
  destruct (run_steps (author_step b_id) (Book.authors self) d1) as [[[]|e] d2]; simpl in *;
    [|by apply quietly_bind_raise].
  eapply quietly_bind; [done|]. intros c2 Hs2 Hu2 Hf2.
  pose proof (quietly_for_each (subject_step b_id) (Book.save_subject b_id)
                (elements (Book.subjects self)) c2 (save_subject_quiet b_id) Hf2) as Hsubjects.
  rewrite Hs2 in Hsubjects.
  destruct (run_steps (subject_step b_id) (elements (Book.subjects self)) d2)
    as [[[]|e] d3]; simpl in *; [|by apply quietly_bind_raise].
  eapply quietly_bind; [done|]. intros c3 Hs3 Hu3 Hf3.
  repeat split; simpl; congruence.
Qed.

Lemma save_quiet self d : Book.save self None d = save_summary self d.
Proof.
  unfold Book.save. rewrite (surjective_pairing (save_summary self d)).
  apply db_conn_quiet. intros c Hs Hu Hf Hl.
  pose proof (save_body_quiet self c Hf Hu Hl) as H. by rewrite Hs in H.
Qed.

(** * The schema's constraints are kept *)

Lemma NoDup_snoc {A} (l : list A) (x : A) : NoDup l → x ∉ l → NoDup (l ++ [x]).
Proof.
  intros Hl Hx. apply NoDup_app. split_and!; [done| |apply NoDup_singleton].
  intros y Hy ->%list_elem_of_singleton. done.
Qed.

Lemma next_rowid_above ids i : i ∈ ids → (i < next_rowid ids)%Z.
Proof.
  unfold next_rowid. induction 1 as [i ids|i j ids _ IH]; simpl; lia.
Qed.

Lemma next_rowid_positive ids : (0 < next_rowid ids)%Z.
Proof. unfold next_rowid. induction ids as [|i ids IH]; simpl; lia. Qed.

Lemma next_rowid_fresh ids : next_rowid ids ∉ ids.
Proof. intros H%next_rowid_above. lia. Qed.

Lemma row_ids_snoc ids : row_ids ids → row_ids (ids ++ [next_rowid ids]).
Proof.
  intros [Hnd Hpos]. split.
  - apply NoDup_snoc; [done|apply next_rowid_fresh].
  - apply Forall_app. split; [done|]. apply Forall_singleton, next_rowid_positive.
Qed.

Lemma insert_book_well_formed url isbn title subtitle cover_url d d' rowid :
  well_formed d →
  insert_book url isbn title subtitle cover_url d = Inserted d' rowid →
  well_formed d'.
Proof.
  intros [[] ? ? ? [Hba Hbs]]. unfold insert_book. repeat case_bool_decide; try done.
  intros [= <- <-]. split; [split|..]; simpl; try done.
  - rewrite fmap_app. by apply NoDup_snoc.
  - rewrite fmap_app. by apply NoDup_snoc.
  - unfold book_ids. simpl. rewrite fmap_app. by apply row_ids_snoc.
  - split; simpl; unfold book_ids; simpl; rewrite fmap_app;
      (eapply Forall_impl; [done|]); intros ? []; split; try done;
      apply elem_of_app; by left.
Qed.

Lemma insert_author_well_formed url name d d' rowid :
  well_formed d → insert_author url name d = Inserted d' rowid → well_formed d'.
Proof.
  intros [[] ? ? ? [Hba Hbs]]. unfold insert_author. case_bool_decide; try done.
  intros [= <- <-]. split; [split|..]; simpl; try done.
  - rewrite fmap_app. by apply NoDup_snoc.
  - unfold author_ids. simpl. rewrite fmap_app. by apply row_ids_snoc.
  - split; simpl; [|done]. unfold author_ids; simpl; rewrite fmap_app.
    eapply Forall_impl; [done|]. intros ? []; split; try done.
    apply elem_of_app; by left.
Qed.

Lemma insert_subject_well_formed name d d' rowid :
  well_formed d → insert_subject name d = Inserted d' rowid → well_formed d'.
Proof.
  intros [[] ? ? ? [Hba Hbs]]. unfold insert_subject. case_bool_decide; try done.
  intros [= <- <-]. split; [split|..]; simpl; try done.
  - rewrite fmap_app. by apply NoDup_snoc.
  - unfold subject_ids. simpl. rewrite fmap_app. by apply row_ids_snoc.
  - split; simpl; [done|]. unfold subject_ids; simpl; rewrite fmap_app.
    eapply Forall_impl; [done|]. intros ? []; split; try done.
    apply elem_of_app; by left.
Qed.

Lemma insert_book_author_well_formed b_id a_id d d' rowid :
  well_formed d → insert_book_author b_id a_id d = Inserted d' rowid → well_formed d'.
Proof.
  intros [[] ? ? ? [Hba Hbs]]. unfold insert_book_author. case_bool_decide; try done.
  destruct (bool_decide (b_id ∈ book_ids d)) eqn:Hb; [|done].
  destruct (bool_decide (a_id ∈ author_ids d)) eqn:Ha; [|done]. simpl.
  apply bool_decide_eq_true in Hb, Ha.
  intros [= <- <-]. split; [split|..]; simpl; try done.
  - by apply NoDup_snoc.
  - split; simpl; [|done]. apply Forall_app. split; [done|]. by apply Forall_singleton.
Qed.

Lemma insert_book_subject_well_formed b_id s_id d d' rowid :
  well_formed d → insert_book_subject b_id s_id d = Inserted d' rowid → well_formed d'.
Proof.
  intros [[] ? ? ? [Hba Hbs]]. unfold insert_book_subject. case_bool_decide; try done.
  destruct (bool_decide (b_id ∈ book_ids d)) eqn:Hb; [|done].
  destruct (bool_decide (s_id ∈ subject_ids d)) eqn:Hs; [|done]. simpl.
  apply bool_decide_eq_true in Hb, Hs.
  intros [= <- <-]. split; [split|..]; simpl; try done.
  - by apply NoDup_snoc.
  - split; simpl; [done|]. apply Forall_app. split; [done|]. by apply Forall_singleton.
Qed.

Lemma run_well_formed st d d' rowid :
  well_formed d → run st d = Inserted d' rowid → well_formed d'.
Proof.
  intros Hwf. destruct st; simpl; try done.
  - by apply insert_book_well_formed.
  - by apply insert_author_well_formed.
  - by apply insert_book_author_well_formed.
  - by apply insert_subject_well_formed.
  - by apply insert_book_subject_well_formed.
Qed.

Lemma execute_well_formed st : keeps well_formed (execute st).
Proof. apply keeps_execute. intros d d' rowid. apply run_well_formed. Qed.

Ltac keeps_steps lemma :=
  repeat first
    [ apply keeps_ret
    | apply keeps_raise
    | apply keeps_commit
    | match goal with |- keeps _ (execute ?st) => exact (lemma st) end
    | apply keeps_transaction
    | apply keeps_for_each; intros ?
    | match goal with
      | |- keeps _ (match fetchone ?cur with _ => _ end) => destruct (fetchone cur)
      end
    | apply keeps_bind; [|intros ?] ].

Lemma save_body_well_formed self : keeps well_formed (Book.save_body self).
Proof.
  unfold Book.save_body, Book.save_book, Book.save_author, Book.save_subject,
    Book.find_or_create_author, Book.find_or_create_subject.
  keeps_steps execute_well_formed.
Qed.

Lemma empty_well_formed : well_formed empty.
Proof.
  split; [split|..]; simpl; try apply NoDup_nil_2; try (split; [apply NoDup_nil_2|done]).
  by split.
Qed.

Lemma save_well_formed self failing d :
  well_formed d → well_formed (Book.save self failing d).2.
Proof. intros Hd. by apply (db_conn_keeps well_formed); [apply save_body_well_formed|]. Qed.

Lemma reachable_well_formed d : reachable d → well_formed d.
Proof.
  induction 1 as [|self failing d _ IH|isbn failing d _ IH].
  - apply empty_well_formed.
  - by apply save_well_formed.
  - by rewrite from_db_readonly.
Qed.

(** * Uniqueness *)

Lemma two_books_share_author_and_subject (b1 b2 : Book.t) (a1 a2 : Author.t) (n : string) :
  Book.isbn b1 ≠ Book.isbn b2 → Book.url b1 ≠ Book.url b2 →
  Book.authors b1 = [a1] → Book.authors b2 = [a2] →
  Author.url a1 = Author.url a2 →
  Book.subjects b1 = {[n]} → Book.subjects b2 = {[n]} →
  let d := (Book.save b2 None (Book.save b1 None empty).2).2 in
  book_ids d = [1; 2]%Z ∧
  author d = [AuthorRow 1 (Author.url a1) (Author.name a1)] ∧
  subject d = [SubjectRow 1 n] ∧
  book_author d = [(1, 1); (2, 1)]%Z ∧
  book_subject d = [(1, 1); (2, 1)]%Z.
Proof.
  intros Hisbn Hurl Ha1 Ha2 Ha Hs1 Hs2. rewrite !save_quiet.
  destruct b1 as [u1 i1 t1 st1 as1 ss1 cu1], b2 as [u2 i2 t2 st2 as2 ss2 cu2],
    a1 as [au1 an1], a2 as [au2 an2].
  simpl in *. subst.
  assert (save_summary (Book.new u1 i1 t1 st1 [Author.new au2 an1] {[n]} cu1) empty =
          (Ok (), Database [BookRow 1 u1 i1 t1 st1 cu1] [AuthorRow 1 au2 an1]
                    [SubjectRow 1 n] [(1, 1)%Z] [(1, 1)%Z])) as ->.
  { unfold save_summary. simpl. by rewrite elements_singleton. }
  unfold save_summary, book_step, lookup_book_id, insert_book. simpl.
  rewrite elements_singleton, filter_cons, filter_nil.
  rewrite decide_False by done. simpl.
  rewrite (bool_decide_eq_false_2 (i2 ∈ [i1]))
    by (intros ?%list_elem_of_singleton; congruence).
  rewrite (bool_decide_eq_false_2 (u2 ∈ [u1]))
    by (intros ?%list_elem_of_singleton; congruence).
  simpl. unfold author_step, author_found, lookup_author_id. simpl.
  rewrite filter_cons, filter_nil, decide_True by done. simpl.
  unfold subject_step, subject_found, lookup_subject_id. simpl.
  rewrite filter_cons, filter_nil, decide_True by done. simpl.
  by repeat split.
Qed.

(** C5: every store reachable from the empty one has at most one book
    row per isbn and per url, one author row per url, one subject row per
    name, and no link pair twice; two books with different isbn and url,
    saved into the empty store with one author of the same url and the
    same one subject, leave one author row and one subject row, each
    linked to both book rows. *)
Theorem uniqueness_invariants :
  (∀ d, reachable d → unique_keys d) ∧
  (∀ (b1 b2 : Book.t) (a1 a2 : Author.t) (n : string),
     Book.isbn b1 ≠ Book.isbn b2 → Book.url b1 ≠ Book.url b2 →
     Book.authors b1 = [a1] → Book.authors b2 = [a2] →
     Author.url a1 = Author.url a2 →
     Book.subjects b1 = {[n]} → Book.subjects b2 = {[n]} →
     let d := (Book.save b2 None (Book.save b1 None empty).2).2 in
     book_ids d = [1; 2]%Z ∧
     author d = [AuthorRow 1 (Author.url a1) (Author.name a1)] ∧
     subject d = [SubjectRow 1 n] ∧
     book_author d = [(1, 1); (2, 1)]%Z ∧
     book_subject d = [(1, 1); (2, 1)]%Z).
Proof.
  split.
  - intros d Hd. by destruct (reachable_well_formed d Hd).
  - apply two_books_share_author_and_subject.
Qed.

Lemma uniqueness_invariants_witness :
  unique_keys (Book.save second_book (Some 12%nat) (Book.save sample_book None empty).2).2 ∧
  book_author (Book.save second_book None (Book.save sample_book None empty).2).2 =
    [(1, 1); (2, 1)]%Z.
Proof.
  destruct uniqueness_invariants as [Hunique Hshared]. split.
  - apply Hunique. do 2 apply reachable_save. apply reachable_empty.
  - by apply (Hshared sample_book second_book sample_author sample_author "Economics").
Defined.

(** * Rules for Hoare triples *)

Lemma hoare_ret {A} (x : A) (pre : connection → Prop) post exc :
  (∀ c, pre c → post x c) → hoare pre (mret x) post exc.
Proof. intros H c Hc. by apply H. Qed.

Lemma hoare_bind {A B} (m : M A) (k : A → M B) pre mid post exc :
  hoare pre m mid exc → (∀ x, hoare (mid x) (k x) post exc) →
  hoare pre (m ≫= k) post exc.
Proof.
  intros Hm Hk c Hc. specialize (Hm c Hc). unfold mbind, M_bind.
  destruct (m c) as [[x|e] c1]; [by apply Hk|done].
Qed.

Lemma hoare_weaken {A} (m : M A) (pre pre' : connection → Prop)
    (post post' : A → connection → Prop) (exc exc' : exn → connection → Prop) :
  hoare pre' m post' exc' →
  (∀ c, pre c → pre' c) → (∀ x c, post' x c → post x c) → (∀ e c, exc' e c → exc e c) →
  hoare pre m post exc.
Proof.
  intros Hm Hpre Hpost Hexc c Hc. specialize (Hm c (Hpre c Hc)).
  destruct (m c) as [[x|e] c1]; auto.
Qed.

Lemma hoare_for_each {A} (xs : list A) (body : A → M unit) inv exc :
  (∀ x, hoare inv (body x) (λ _, inv) exc) →
  hoare inv (for_each xs body) (λ _, inv) exc.
Proof.
  intros Hb. induction xs as [|x xs IH]; simpl; [by apply hoare_ret|].
  eapply hoare_bind; [apply Hb|]. by intros [].
Qed.

Lemma issue_same_tables st c : same_tables c (issue st c).2.
Proof. unfold issue. by destruct (faults c) as [[|n]|]. Qed.

Lemma issue_raises st c e : (issue st c).1 = Raise e → e = OperationalError st.
Proof. unfold issue. destruct (faults c) as [[|n]|]; simpl; congruence. Qed.

Lemma hoare_execute st (pre : connection → Prop) post exc :
  (∀ c c', pre c → same_tables c c' →
     exc (OperationalError st) c' ∧
     match run st (store c') with
     | Failed e => exc e c'
     | Rows rs => post (Cursor rs (last_insert_rowid c')) c'
     | Inserted d rowid =>
         post (Cursor [] rowid) (Connection d (undo c') rowid (issued c') (faults c'))
     | Ignored => post (Cursor [] (last_insert_rowid c')) c'
     end) →
  hoare pre (execute st) post exc.
Proof.
  intros H c Hc. unfold execute, mbind, M_bind.
  pose proof (issue_same_tables st c) as Hsame.
  pose proof (issue_raises st c) as Hraise.
  destruct (issue st c) as [[[]|e] c']; simpl in *.
  - destruct (H c c' Hc Hsame) as [_ Hrun]. unfold perform.
    by destruct (run st (store c')).
  - rewrite (Hraise e eq_refl). by destruct (H c c' Hc Hsame).
Qed.

(** * The identities used by the link inserts *)

Lemma head_fmap_filter_Some {A B} (f : A → B) (P : A → Prop) `{!∀ x, Decision (P x)}
    (l : list A) (y : B) :
  head (f <$> filter P l) = Some y → ∃ x, x ∈ l ∧ P x ∧ f x = y.
Proof.
  destruct (filter P l) as [|x rest] eqn:Hf; [done|]. intros [= <-].
  assert (x ∈ filter P l) as Hin by (rewrite Hf; left).
  apply list_elem_of_filter in Hin as [HP Hin]. eauto.
Qed.

Lemma find_or_create_author_hoare bk a :
  hoare (book_table bk) (Book.find_or_create_author a)
    (λ a_id c, book_table bk c ∧
               ∃ row, row ∈ author (store c) ∧ author_id row = a_id ∧
                      author_url row = Author.url a)
    (no_foreign_key_failure bk).
Proof.
  unfold Book.find_or_create_author.
  eapply (hoare_bind _ _ _
    (λ cur c, book_table bk c ∧
              fetchone cur = lookup_author_id (Author.url a) (store c))).
  { apply (hoare_execute (SelectAuthorIdByUrl (Author.url a))).
    intros c c' Hc (Hs & _ & _). simpl.
    unfold no_foreign_key_failure, book_table in *. by rewrite Hs. }
  intros cur. destruct (fetchone cur) as [a_id|] eqn:Hfetch.
  { apply hoare_ret. intros c [Hc Hlook]. split; [done|]. symmetry in Hlook.
    apply head_fmap_filter_Some in Hlook as (row & ? & ? & ?). eauto. }
  eapply (hoare_bind _ _ _
    (λ cur c, book_table bk c ∧
              ∃ row, row ∈ author (store c) ∧ author_id row = lastrowid cur ∧
                     author_url row = Author.url a)).
  - apply (hoare_execute (InsertAuthor (Author.url a) (Author.name a))).
    intros c c' [Hc Hlook] (Hs & _ & _). simpl.
    unfold no_foreign_key_failure, book_table in *. rewrite Hs. split; [done|].
    rewrite (insert_author_new _ _ _ (lookup_author_id_None _ _ (eq_sym Hlook))).
    simpl. split; [done|]. eexists. split; [apply elem_of_app; right; left|done].
  - intros cur'. by apply hoare_ret.
Qed.

Lemma find_or_create_subject_hoare bk name :
  hoare (book_table bk) (Book.find_or_create_subject name)
    (λ s_id c, book_table bk c ∧
               ∃ row, row ∈ subject (store c) ∧ subject_id row = s_id ∧
                      sub_name row = name)
    (no_foreign_key_failure bk).
Proof.
  unfold Book.find_or_create_subject.
  eapply (hoare_bind _ _ _
    (λ cur c, book_table bk c ∧ fetchone cur = lookup_subject_id name (store c))).
  { apply (hoare_execute (SelectSubjectIdByName name)).
    intros c c' Hc (Hs & _ & _). simpl.
    unfold no_foreign_key_failure, book_table in *. by rewrite Hs. }
  intros cur. destruct (fetchone cur) as [s_id|] eqn:Hfetch.
  { apply hoare_ret. intros c [Hc Hlook]. split; [done|]. symmetry in Hlook.
    apply head_fmap_filter_Some in Hlook as (row & ? & ? & ?). eauto. }
  eapply (hoare_bind _ _ _
    (λ cur c, book_table bk c ∧
              ∃ row, row ∈ subject (store c) ∧ subject_id row = lastrowid cur ∧
                     sub_name row = name)).
  - apply (hoare_execute (InsertSubject name)).
    intros c c' [Hc Hlook] (Hs & _ & _). simpl.
    unfold no_foreign_key_failure, book_table in *. rewrite Hs. split; [done|].
    rewrite (insert_subject_new _ _ (lookup_subject_id_None _ _ (eq_sym Hlook))).
    simpl. split; [done|]. eexists. split; [apply elem_of_app; right; left|done].
  - intros cur'. by apply hoare_ret.
Qed.

Lemma insert_book_author_cases b_id a_id d :
  b_id ∈ book_ids d → a_id ∈ author_ids d →
  insert_book_author b_id a_id d = Ignored ∨
  insert_book_author b_id a_id d =
    Inserted (Database (book d) (author d) (subject d)
                (book_author d ++ [(b_id, a_id)]) (book_subject d))
             (link_rowid (book_author d)).
Proof.
  intros Hb Ha. unfold insert_book_author. case_bool_decide; [by left|].
  right. by rewrite !bool_decide_eq_true_2.
Qed.

Lemma insert_book_subject_cases b_id s_id d :
  b_id ∈ book_ids d → s_id ∈ subject_ids d →
  insert_book_subject b_id s_id d = Ignored ∨
  insert_book_subject b_id s_id d =
    Inserted (Database (book d) (author d) (subject d)
                (book_author d) (book_subject d ++ [(b_id, s_id)]))
             (link_rowid (book_subject d)).
Proof.
  intros Hb Hs. unfold insert_book_subject. case_bool_decide; [by left|].
  right. by rewrite !bool_decide_eq_true_2.
Qed.

Lemma save_author_hoare bk b_id a :
  b_id ∈ book_id <$> bk →
  hoare (book_table bk) (Book.save_author b_id a) (λ _, book_table bk)
    (no_foreign_key_failure bk).
Proof.
  intros Hb. unfold Book.save_author.
  eapply hoare_bind; [apply find_or_create_author_hoare|]. intros a_id.
  eapply (hoare_bind _ _ _ (λ _, book_table bk)); [|intros cur; by apply hoare_ret].
  apply (hoare_execute (InsertBookAuthor b_id a_id)).
  intros c c' [Hc (row & Hin & Hid & _)] (Hs & _ & _). simpl.
  unfold no_foreign_key_failure, book_table in *. rewrite Hs. split; [done|].
  destruct (insert_book_author_cases b_id a_id (store c)) as [-> | ->]; try done.
  - unfold book_ids. by rewrite Hc.
  - rewrite <- Hid. by apply list_elem_of_fmap_2.
Qed.

Lemma save_subject_hoare bk b_id name :
  b_id ∈ book_id <$> bk →
  hoare (book_table bk) (Book.save_subject b_id name) (λ _, book_table bk)
    (no_foreign_key_failure bk).
Proof.
  intros Hb. unfold Book.save_subject.
  eapply hoare_bind; [apply find_or_create_subject_hoare|]. intros s_id.
  eapply (hoare_bind _ _ _ (λ _, book_table bk)); [|intros cur; by apply hoare_ret].
  apply (hoare_execute (InsertBookSubject b_id s_id)).
  intros c c' [Hc (row & Hin & Hid & _)] (Hs & _ & _). simpl.
  unfold no_foreign_key_failure, book_table in *. rewrite Hs. split; [done|].
  destruct (insert_book_subject_cases b_id s_id (store c)) as [-> | ->]; try done.
  - unfold book_ids. by rewrite Hc.
  - rewrite <- Hid. by apply list_elem_of_fmap_2.
Qed.

(** C10: in every state of the connection, the identity that the
    find-or-create of an author or a subject yields is the id of a row of
    the table at that point; after a lookup that found nothing the insert
    is not ignored and gives the new row the [lastrowid] it reports; so,
    the book row being there, the loops never raise a foreign-key
    violation. *)
Theorem link_inserts_safe (b_id : Z) (c : connection) :
  (∀ a a_id c', Book.find_or_create_author a c = (Ok a_id, c') →
                a_id ∈ author_ids (store c')) ∧
  (∀ s s_id c', Book.find_or_create_subject s c = (Ok s_id, c') →
                s_id ∈ subject_ids (store c')) ∧
  (∀ url name, lookup_author_id url (store c) = None →
     ∃ d' rowid, insert_author url name (store c) = Inserted d' rowid ∧
                 AuthorRow rowid url name ∈ author d') ∧
  (∀ name, lookup_subject_id name (store c) = None →
     ∃ d' rowid, insert_subject name (store c) = Inserted d' rowid ∧
                 SubjectRow rowid name ∈ subject d') ∧
  (b_id ∈ book_ids (store c) →
   (∀ authors, (for_each authors (Book.save_author b_id) c).1 ≠
                 Raise (IntegrityError ForeignKeyViolation)) ∧
   (∀ subjects, (for_each subjects (Book.save_subject b_id) c).1 ≠
                  Raise (IntegrityError ForeignKeyViolation))).
Proof.
  split_and!.
  - intros a a_id c' Hrun.
    pose proof (find_or_create_author_hoare (book (store c)) a c eq_refl) as H.
    rewrite Hrun in H. destruct H as (_ & row & Hin & <- & _).
    by apply list_elem_of_fmap_2.
  - intros s s_id c' Hrun.
    pose proof (find_or_create_subject_hoare (book (store c)) s c eq_refl) as H.
    rewrite Hrun in H. destruct H as (_ & row & Hin & <- & _).
    by apply list_elem_of_fmap_2.
  - intros url name Hlook. do 2 eexists.
    rewrite (insert_author_new _ _ _ (lookup_author_id_None _ _ Hlook)).
    split; [done|]. simpl. apply elem_of_app; right; left.
  - intros name Hlook. do 2 eexists.
    rewrite (insert_subject_new _ _ (lookup_subject_id_None _ _ Hlook)).
    split; [done|]. simpl. apply elem_of_app; right; left.
  - intros Hb. split.
    + intros authors.
      pose proof (hoare_for_each authors (Book.save_author b_id) _ _
                    (λ a, save_author_hoare (book (store c)) b_id a Hb) c eq_refl) as H.
      destruct (for_each authors (Book.save_author b_id) c) as [[[]|e] c']; [done|].
      simpl. intros [= ->]. by destruct H.
    + intros subjects.
      pose proof (hoare_for_each subjects (Book.save_subject b_id) _ _
                    (λ s, save_subject_hoare (book (store c)) b_id s Hb) c eq_refl) as H.
      destruct (for_each subjects (Book.save_subject b_id) c) as [[[]|e] c']; [done|].
      simpl. intros [= ->]. by destruct H.
Qed.

Lemma link_inserts_safe_witness :
  (for_each [sample_author; Author.new "https://ol/a9" "N. Ew"] (Book.save_author 1)
     (connect (Book.save sample_book None empty).2 (Some 3%nat))).1 ≠
    Raise (IntegrityError ForeignKeyViolation).
Proof.
  destruct (link_inserts_safe 1 (connect (Book.save sample_book None empty).2 (Some 3%nat)))
    as (_ & _ & _ & _ & Hloops).
  assert (1%Z ∈ book_ids (store (connect (Book.save sample_book None empty).2 (Some 3%nat))))
    as Hb by (vm_compute; left).
  exact (proj1 (Hloops Hb) [sample_author; Author.new "https://ol/a9" "N. Ew"]).
Defined.

(** * The url conflict *)

Lemma book_step_conflict self d :
  Book.isbn self ∉ book_isbn <$> book d → Book.url self ∈ book_url <$> book d →
  book_step self d = (Ok 0%Z, d).
Proof.
  intros Hisbn Hurl. unfold book_step, lookup_book_id, insert_book.
  rewrite bool_decide_eq_false_2, bool_decide_eq_true_2 by done.
  destruct (filter _ (book d)) as [|row rest] eqn:Hf; [done|].
  exfalso. apply Hisbn.
  assert (row ∈ filter (λ b, book_isbn b = Book.isbn self) (book d)) as Hin
    by (rewrite Hf; left).
  apply list_elem_of_filter in Hin as [<- Hin]. by apply list_elem_of_fmap_2.
Qed.

(** C4: [url_rival] has the url of the saved [sample_book] and another
    isbn.  Its [save] adds no book row and leaves the row of
    [sample_book] alone, but the identity it takes for the links is
    [lastrowid], 0 on this connection, not the id 1 of the row that holds
    the url; the link insert then raises a foreign-key violation and the
    new isbn stays unknown. *)
Theorem save_url_rival :
  let d1 := (Book.save sample_book None empty).2 in
  lookup_book_id (Book.isbn sample_book) d1 = Some 1%Z ∧
  (Book.save_book url_rival (connect d1 None)).1 = Ok 0%Z ∧
  Book.save url_rival None d1 = (Raise (IntegrityError ForeignKeyViolation), d1) ∧
  lookup_book_id (Book.isbn url_rival) (Book.save url_rival None d1).2 = None.
Proof. vm_compute. by repeat split. Qed.

(** * Failures during [save] *)

(** ** A failure of the engine is not swallowed *)

Lemma propagates_ret {A} (x : A) : propagates (mret x).
Proof. intros c [H1 H2]. simpl in *. congruence. Qed.

Lemma propagates_raise {A} e : propagates (@raise A e).
Proof. by intros c _. Qed.

Lemma propagates_bind {A B} (m : M A) (k : A → M B) :
  propagates m → (∀ x, propagates (k x)) → propagates (m ≫= k).
Proof.
  intros Hm Hk c [Hc Hc']. specialize (Hm c). unfold mbind, M_bind in *.
  destruct (m c) as [[x|e] c1]; simpl in *; [|done].
  destruct (faults c1) eqn:Hf1.
  - apply Hk. split; [congruence|done].
  - by destruct Hm.
Qed.

Lemma propagates_for_each {A} (xs : list A) body :
  (∀ x, propagates (body x)) → propagates (for_each xs body).
Proof.
  intros Hb. induction xs as [|x xs IH]; simpl; [apply propagates_ret|].
  by apply propagates_bind.
Qed.

Lemma propagates_finally {A} (body : M A) cleanup :
  propagates body → propagates cleanup → propagates (finally body cleanup).
Proof.
  intros Hb Hf c [Hc Hc']. specialize (Hb c). unfold finally in *.
  destruct (body c) as [r c1]; simpl in *. specialize (Hf c1).
  destruct (cleanup c1) as [[[]|e] c2]; simpl in *; [|done].
  destruct (faults c1) eqn:Hf1.
  - destruct Hf. split; [congruence|done].
  - by apply Hb.
Qed.

Lemma propagates_try_except_else {A} (body : M A) handler otherwise :
  propagates body → propagates otherwise →
  propagates (try_except_else body handler otherwise).
Proof.
  intros Hb Ho c [Hc Hc']. specialize (Hb c). unfold try_except_else in *.
  destruct (body c) as [[x|e] c1]; simpl in *.
  - destruct (faults c1) eqn:Hf1.
    + apply (propagates_bind otherwise (λ _, mret x)); [done|intros; apply propagates_ret|].
      split; [congruence|done].
    + by destruct Hb.
  - unfold mbind, M_bind. by destruct (handler c1) as [[[]|e'] c2].
Qed.

Lemma propagates_issue st : propagates (issue st).
Proof. intros c [Hc Hc']. unfold issue in *. by destruct (faults c) as [[|n]|]. Qed.

Lemma propagates_perform st : propagates (perform st).
Proof.
  intros c [Hc Hc']. unfold perform in *.
  destruct (run st (store c)); simpl in *; congruence.
Qed.

Lemma propagates_execute st : propagates (execute st).
Proof. apply propagates_bind; [apply propagates_issue|intros; apply propagates_perform]. Qed.

Lemma propagates_begin : propagates begin.
Proof.
  apply propagates_bind; [apply propagates_issue|]. intros _ c [Hc Hc'].
  destruct (undo c); simpl in *; congruence.
Qed.

Lemma propagates_commit : propagates commit.
Proof. intros c [Hc Hc']. simpl in *. congruence. Qed.

Lemma propagates_transaction {A} (body : M A) : propagates body → propagates (transaction body).
Proof.
  intros Hb. apply propagates_bind; [apply propagates_begin|]. intros _.
  apply propagates_try_except_else; [done|apply propagates_commit].
Qed.

Ltac propagates_steps :=
  repeat first
    [ apply propagates_ret
    | apply propagates_raise
    | apply propagates_commit
    | match goal with |- propagates (execute ?st) => exact (propagates_execute st) end
    | apply propagates_transaction
    | apply propagates_for_each; intros ?
    | apply propagates_finally
    | match goal with
      | |- propagates (match fetchone ?cur with _ => _ end) => destruct (fetchone cur)
      end
    | apply propagates_bind; [|intros ?] ].

Lemma save_session_propagates self : propagates (session (Book.save_body self)).
Proof.
  unfold session, Book.save_body, Book.save_book, Book.save_author, Book.save_subject,
    Book.find_or_create_author, Book.find_or_create_subject.
  propagates_steps.
Qed.

(** ** Where a failure leaves the store *)

Lemma run_failed_late st d e : run st d = Failed e → late e.
Proof.
  destruct st; simpl; try done.
  - unfold insert_book. repeat case_bool_decide; try done. by intros [= <-] st ?.
  - unfold insert_author. by case_bool_decide.
  - unfold insert_book_author. repeat case_bool_decide; simpl; try done; by intros [= <-] st ?.
  - unfold insert_subject. by case_bool_decide.
  - unfold insert_book_subject. repeat case_bool_decide; simpl; try done;
      by intros [= <-] st ?.
Qed.

Lemma execute_late st :
  ¬ book_phase st →
  hoare (λ _, True) (execute st) (λ _ _, True) (λ e _, late e).
Proof.
  intros Hst. apply hoare_execute. intros c c' _ _. split.
  - by intros st' [= <-].
  - destruct (run st (store c')) eqn:Hrun; try done. by eapply run_failed_late.
Qed.

Ltac late_steps :=
  repeat first
    [ by apply hoare_ret
    | match goal with
      | |- hoare _ (execute ?st) _ _ => apply (execute_late st); simpl; tauto
      | |- hoare _ commit _ _ => by intros c _
      end
    | apply hoare_for_each; intros ?
    | match goal with
      | |- hoare _ (match fetchone ?cur with _ => _ end) _ _ => destruct (fetchone cur)
      end
    | eapply (hoare_bind _ _ _ (λ _ _, True)); [|intros ?] ].

Lemma save_loops_late self b_id :
  hoare (λ _, True)
    (for_each (Book.authors self) (Book.save_author b_id);;
     for_each (elements (Book.subjects self)) (Book.save_subject b_id);;
     commit)
    (λ _ _, True) (λ e _, late e).
Proof.
  unfold Book.save_author, Book.save_subject, Book.find_or_create_author,
    Book.find_or_create_subject.
  late_steps.
Qed.

(** The tables are [d] and no transaction is open. *)
Lemma transaction_failure st d :
  hoare (λ c, store c = d ∧ undo c = None) (transaction (execute st))
    (λ _ _, True) (λ _ c, store c = d ∧ undo c = None).
Proof.
  intros c [Hs Hu]. unfold transaction, begin, mbind, M_bind.
  destruct (issue_same_tables Begin c) as (Hs0 & Hu0 & _).
  destruct (issue Begin c) as [[[]|e] c0]; simpl in *; [|split; congruence].
  rewrite Hu0, Hu. unfold try_except_else, execute, mbind, M_bind. simpl.
  match goal with |- context [issue st ?c1] =>
    destruct (issue_same_tables st c1) as (Hs1 & Hu1 & _);
    destruct (issue st c1) as [[[]|e] c2] end; simpl in *.
  - unfold perform. destruct (run st (store c2)); simpl; try done.
    rewrite Hu1. simpl. split; congruence.
  - rewrite Hu1. simpl. split; congruence.
Qed.

Lemma save_book_failure self d :
  hoare (λ c, store c = d ∧ undo c = None) (Book.save_book self)
    (λ _ _, True) (λ _ c, store c = d ∧ undo c = None).
Proof.
  unfold Book.save_book.
  eapply (hoare_bind _ _ _ (λ _ c, store c = d ∧ undo c = None)).
  { apply (hoare_execute (SelectBookIdByIsbn (Book.isbn self))).
    intros c c' [Hs Hu] (Hs' & Hu' & _). simpl. split; split; congruence. }
  intros cur. destruct (fetchone cur); [by apply hoare_ret|].
  eapply (hoare_bind _ _ _ (λ _ _, True)); [apply transaction_failure|].
  intros cur'. by apply hoare_ret.
Qed.

Lemma save_body_failure self d :
  hoare (λ c, store c = d ∧ undo c = None) (Book.save_body self)
    (λ _ _, True) (λ e c, late e ∨ (store c = d ∧ undo c = None)).
Proof.
  unfold Book.save_body.
  eapply (hoare_bind _ _ _ (λ _ _, True)).
  { eapply hoare_weaken; [apply (save_book_failure self d)|..]; simpl; auto. }
  intros b_id. eapply hoare_weaken; [apply save_loops_late|..]; simpl; auto.
Qed.

Lemma pragma_cases setting c :
  same_tables c (execute (Pragma setting) c).2 ∧
  ∀ e, (execute (Pragma setting) c).1 = Raise e → e = OperationalError (Pragma setting).
Proof.
  unfold execute, mbind, M_bind.
  pose proof (issue_same_tables (Pragma setting) c) as Hsame.
  pose proof (issue_raises (Pragma setting) c) as Hraise.
  destruct (issue (Pragma setting) c) as [[[]|e] c']; simpl in *; (split; [done|]).
  - by intros e.
  - intros e' [= <-]. by apply Hraise.
Qed.

Lemma session_failure {A} (body : M A) d :
  hoare (λ c, store c = d ∧ undo c = None) body
    (λ _ _, True) (λ e c, late e ∨ (store c = d ∧ undo c = None)) →
  hoare (λ c, store c = d ∧ undo c = None) (session body)
    (λ _ _, True) (λ e c, late e ∨ (store c = d ∧ undo c = None)).
Proof.
  intros Hbody. unfold session.
  repeat (eapply (hoare_bind _ _ _ (λ _ c, store c = d ∧ undo c = None));
    [ match goal with |- hoare _ (execute (Pragma ?s)) _ _ =>
        apply (hoare_execute (Pragma s)); intros c c' [Hs Hu] (Hs' & Hu' & _); simpl;
        split; [right|]; split; congruence
      end
    | intros _ ]).
  intros c Hc. specialize (Hbody c Hc). unfold finally.
  destruct (body c) as [r c1]. unfold mbind, M_bind.
  destruct (pragma_cases "analysis_limit=400" c1) as ((Hs1 & Hu1 & _) & Hr1).
  destruct (execute (Pragma "analysis_limit=400") c1) as [[cur1|e1] c2]; simpl in *.
  - destruct (pragma_cases "optimize" c2) as ((Hs2 & Hu2 & _) & Hr2).
    destruct (execute (Pragma "optimize") c2) as [[cur2|e2] c3]; simpl in *.
    + destruct r as [x|e]; [done|].
      destruct Hbody as [?|[? ?]]; [by left|right; split; congruence].
    + left. rewrite (Hr2 e2 eq_refl). intros st [= <-]. simpl.
      intros H. repeat (apply elem_of_cons in H as [?|H]; [done|]). by apply elem_of_nil in H.
  - left. rewrite (Hr1 e1 eq_refl). intros st [= <-]. simpl.
    intros H. repeat (apply elem_of_cons in H as [?|H]; [done|]). by apply elem_of_nil in H.
Qed.

(** C1: a failure of the engine during [save] reaches the caller as an
    exception; when the exception is the failure of a statement up to
    and including the insert of the book row, the file is as it was
    before the call. *)
Theorem save_failure (self : Book.t) (failing : option nat) (d : database) :
  (engine_failed (connect d failing) (session (Book.save_body self) (connect d failing)).2 →
   raised (Book.save self failing d).1) ∧
  (∀ st, (Book.save self failing d).1 = Raise (OperationalError st) → book_phase st →
         (Book.save self failing d).2 = d).
Proof.
  unfold Book.save, db_conn.
  pose proof (save_session_propagates self (connect d failing)) as Hprop.
  pose proof (session_failure _ d (save_body_failure self d) (connect d failing)
                (conj eq_refl eq_refl)) as Hfail.
  destruct (session (Book.save_body self) (connect d failing)) as [r c']; simpl in *.
  split; [done|]. intros st -> Hst.
  destruct Hfail as [Hlate|[Hs Hu]]; [by destruct (Hlate st eq_refl)|].
  unfold close. by rewrite Hu.
Qed.

Lemma save_failure_witness :
  raised (Book.save sample_book (Some 6%nat) empty).1 ∧
  (Book.save sample_book (Some 6%nat) empty).2 = empty.
Proof.
  destruct (save_failure sample_book (Some 6%nat) empty) as [Hraised Hkept]. split.
  - apply Hraised. by vm_compute.
  - apply (Hkept (InsertBook "https://ol/b1" "9780226550275" "T" None None)); by vm_compute.
Defined.

(** C1, as stated, fails: the engine failing the insert of the author
    row, [save] raises and the book row stays in the file. *)
Lemma save_not_atomic :
  ¬ (∀ (self : Book.t) (failing : option nat) (d : database),
       raised (Book.save self failing d).1 → (Book.save self failing d).2 = d).
Proof.
  intros H. specialize (H sample_book (Some 8%nat) empty).
  assert (book (Book.save sample_book (Some 8%nat) empty).2 ≠ []) as Hbook by by vm_compute.
  apply Hbook. rewrite H; [done|]. by vm_compute.
Qed.

(** * Saving twice *)

Lemma extends_refl d : extends d d.
Proof. by repeat split. Qed.

Lemma extends_trans d1 d2 d3 : extends d1 d2 → extends d2 d3 → extends d1 d3.
Proof.
  intros (Hb1 & ? & ? & ? & ?) (Hb2 & ? & ? & ? & ?).
  split_and!; [congruence|by etrans..].
Qed.

Lemma head_fmap_filter_prefix {A B} (f : A → B) (P : A → Prop) `{!∀ x, Decision (P x)}
    (l l' : list A) (y : B) :
  l `prefix_of` l' → head (f <$> filter P l) = Some y → head (f <$> filter P l') = Some y.
Proof.
  intros [k ->]. rewrite filter_app, fmap_app.
  by destruct (f <$> filter P l).
Qed.

Lemma lookup_author_id_extends d d' url a_id :
  extends d d' → lookup_author_id url d = Some a_id → lookup_author_id url d' = Some a_id.
Proof. intros (_ & Ha & _). by apply head_fmap_filter_prefix. Qed.

Lemma lookup_subject_id_extends d d' name s_id :
  extends d d' → lookup_subject_id name d = Some s_id → lookup_subject_id name d' = Some s_id.
Proof. intros (_ & _ & Hs & _). by apply head_fmap_filter_prefix. Qed.

Lemma elem_of_prefix {A} (l l' : list A) x : l `prefix_of` l' → x ∈ l → x ∈ l'.
Proof. intros [k ->] Hx. apply elem_of_app. by left. Qed.

Lemma author_settled_extends b_id d d' a :
  extends d d' → author_settled b_id d a → author_settled b_id d' a.
Proof.
  intros Hext (a_id & Hlook & Hlink). exists a_id. split.
  - by eapply lookup_author_id_extends.
  - destruct Hext as (_ & _ & _ & Hba & _). by eapply elem_of_prefix.
Qed.

Lemma subject_settled_extends b_id d d' name :
  extends d d' → subject_settled b_id d name → subject_settled b_id d' name.
Proof.
  intros Hext (s_id & Hlook & Hlink). exists s_id. split.
  - by eapply lookup_subject_id_extends.
  - destruct Hext as (_ & _ & _ & _ & Hbs). by eapply elem_of_prefix.
Qed.

Lemma head_fmap_None {A B} (f : A → B) (l : list A) : head (f <$> l) = None → l = [].
Proof. by destruct l. Qed.

Lemma author_found_spec a d :
  extends d (author_found a d).2 ∧
  lookup_author_id (Author.url a) (author_found a d).2 = Some (author_found a d).1 ∧
  book_author (author_found a d).2 = book_author d.
Proof.
  unfold author_found.
  destruct (lookup_author_id (Author.url a) d) as [a_id|] eqn:Hlook; simpl.
  { split; [apply extends_refl|done]. }
  rewrite (insert_author_new _ _ _ (lookup_author_id_None _ _ Hlook)). simpl.
  split_and!; [|  |done].
  - split_and!; simpl; try done. by apply prefix_app_r.
  - unfold lookup_author_id in *. simpl. rewrite filter_app.
    rewrite (head_fmap_None _ _ Hlook). simpl.
    by rewrite filter_cons, decide_True.
Qed.

Lemma subject_found_spec name d :
  extends d (subject_found name d).2 ∧
  lookup_subject_id name (subject_found name d).2 = Some (subject_found name d).1 ∧
  book_subject (subject_found name d).2 = book_subject d.
Proof.
  unfold subject_found.
  destruct (lookup_subject_id name d) as [s_id|] eqn:Hlook; simpl.
  { split; [apply extends_refl|done]. }
  rewrite (insert_subject_new _ _ (lookup_subject_id_None _ _ Hlook)). simpl.
  split_and!; [|  |done].
  - split_and!; simpl; try done. by apply prefix_app_r.
  - unfold lookup_subject_id in *. simpl. rewrite filter_app.
    rewrite (head_fmap_None _ _ Hlook). simpl.
    by rewrite filter_cons, decide_True.
Qed.

Lemma author_found_again a d a_id :
  lookup_author_id (Author.url a) d = Some a_id → author_found a d = (a_id, d).
Proof. unfold author_found. by intros ->. Qed.

Lemma subject_found_again name d s_id :
  lookup_subject_id name d = Some s_id → subject_found name d = (s_id, d).
Proof. unfold subject_found. by intros ->. Qed.

Lemma author_step_settled b_id a d :
  author_settled b_id d a → author_step b_id a d = (Ok (), d).
Proof.
  intros (a_id & Hlook & Hlink). unfold author_step.
  rewrite (author_found_again _ _ _ Hlook). unfold insert_book_author.
  by rewrite bool_decide_eq_true_2.
Qed.

Lemma subject_step_settled b_id name d :
  subject_settled b_id d name → subject_step b_id name d = (Ok (), d).
Proof.
  intros (s_id & Hlook & Hlink). unfold subject_step.
  rewrite (subject_found_again _ _ _ Hlook). unfold insert_book_subject.
  by rewrite bool_decide_eq_true_2.
Qed.

Lemma author_step_unfold b_id a d :
  author_step b_id a d =
    settle (insert_book_author b_id (author_found a d).1 (author_found a d).2)
      (author_found a d).2.
Proof. unfold author_step. by destruct (author_found a d). Qed.

Lemma subject_step_unfold b_id name d :
  subject_step b_id name d =
    settle (insert_book_subject b_id (subject_found name d).1 (subject_found name d).2)
      (subject_found name d).2.
Proof. unfold subject_step. by destruct (subject_found name d). Qed.

Lemma author_step_spec b_id a d :
  extends d (author_step b_id a d).2 ∧
  ((author_step b_id a d).1 = Ok () → author_settled b_id (author_step b_id a d).2 a) ∧
  author_step b_id a (author_step b_id a d).2 = author_step b_id a d.
Proof.
  destruct (author_found_spec a d) as (Hext & Hlook & Hlinks).
  rewrite (author_step_unfold b_id a d).
  destruct (author_found a d) as [a_id d1]. simpl in *.
  unfold insert_book_author.
  destruct (bool_decide ((b_id, a_id) ∈ book_author d1)) eqn:Hin; simpl.
  { apply bool_decide_eq_true in Hin.
    assert (author_settled b_id d1 a) as Hset by (by exists a_id).
    split; [done|]. split; [done|]. by apply author_step_settled. }
  destruct (bool_decide (b_id ∈ book_ids d1) && bool_decide (a_id ∈ author_ids d1)) eqn:Hfk;
    simpl.
  - assert (author_settled b_id
      (Database (book d1) (author d1) (subject d1) (book_author d1 ++ [(b_id, a_id)])
         (book_subject d1)) a) as Hset.
    { exists a_id. split; [done|]. simpl. apply elem_of_app. right. left. }
    split; [|split; [done|by apply author_step_settled]].
    eapply extends_trans; [done|]. split_and!; simpl; try done. by apply prefix_app_r.
  - split; [done|]. split; [done|]. rewrite author_step_unfold.
    rewrite (author_found_again _ _ _ Hlook). simpl. unfold insert_book_author.
    by rewrite Hin, Hfk.
Qed.

Lemma subject_step_spec b_id name d :
  extends d (subject_step b_id name d).2 ∧
  ((subject_step b_id name d).1 = Ok () →
   subject_settled b_id (subject_step b_id name d).2 name) ∧
  subject_step b_id name (subject_step b_id name d).2 = subject_step b_id name d.
Proof.
  destruct (subject_found_spec name d) as (Hext & Hlook & Hlinks).
  rewrite (subject_step_unfold b_id name d).
  destruct (subject_found name d) as [s_id d1]. simpl in *.
  unfold insert_book_subject.
  destruct (bool_decide ((b_id, s_id) ∈ book_subject d1)) eqn:Hin; simpl.
  { apply bool_decide_eq_true in Hin.
    assert (subject_settled b_id d1 name) as Hset by (by exists s_id).
    split; [done|]. split; [done|]. by apply subject_step_settled. }
  destruct (bool_decide (b_id ∈ book_ids d1) && bool_decide (s_id ∈ subject_ids d1)) eqn:Hfk;
    simpl.
  - assert (subject_settled b_id
      (Database (book d1) (author d1) (subject d1) (book_author d1)
         (book_subject d1 ++ [(b_id, s_id)])) name) as Hset.
    { exists s_id. split; [done|]. simpl. apply elem_of_app. right. left. }
    split; [|split; [done|by apply subject_step_settled]].
    eapply extends_trans; [done|]. split_and!; simpl; try done. by apply prefix_app_r.
  - split; [done|]. split; [done|]. rewrite subject_step_unfold.
    rewrite (subject_found_again _ _ _ Hlook). simpl. unfold insert_book_subject.
    by rewrite Hin, Hfk.
Qed.

Section Steps.
Context {A : Type} (step : A → database → result unit * database)
  (settled : database → A → Prop).
Context (step_extends : ∀ x d, extends d (step x d).2)
  (step_settles : ∀ x d, (step x d).1 = Ok () → settled (step x d).2 x)
  (step_again : ∀ x d, step x (step x d).2 = step x d)
  (step_settled : ∀ x d, settled d x → step x d = (Ok (), d))
  (settled_extends : ∀ x d d', extends d d' → settled d x → settled d' x).

Lemma run_steps_extends xs d : extends d (run_steps step xs d).2.
Proof.
  revert d. induction xs as [|x xs IH]; intros d; simpl; [apply extends_refl|].
  pose proof (step_extends x d) as Hx.
  destruct (step x d) as [[[]|e] d1]; simpl in *; [|done].
  by eapply extends_trans.
Qed.

Lemma run_steps_settled xs d : Forall (settled d) xs → run_steps step xs d = (Ok (), d).
Proof.
  induction 1 as [|x xs Hx _ IH]; simpl; [done|]. by rewrite (step_settled _ _ Hx).
Qed.

Lemma run_steps_settles xs d :
  (run_steps step xs d).1 = Ok () → Forall (settled (run_steps step xs d).2) xs.
Proof.
  revert d. induction xs as [|x xs IH]; intros d; simpl; [by constructor|].
  pose proof (step_settles x d) as Hx.
  destruct (step x d) as [[[]|e] d1]; simpl in *; [|done].
  intros Hok. constructor; [|by apply IH].
  eapply settled_extends; [apply run_steps_extends|by apply Hx].
Qed.

Lemma run_steps_again xs d :
  run_steps step xs (run_steps step xs d).2 = run_steps step xs d.
Proof.
  revert d. induction xs as [|x xs IH]; intros d; simpl; [done|].
  pose proof (step_settles x d) as Hx. pose proof (step_again x d) as Hagain.
  destruct (step x d) as [[[]|e] d1] eqn:Hstep; simpl in *.
  - rewrite (step_settled x (run_steps step xs d1).2).
    + apply IH.
    + eapply settled_extends; [apply run_steps_extends|by apply Hx].
  - by rewrite Hagain.
Qed.

End Steps.

Lemma book_step_spec self d b_id d1 :
  book_step self d = (Ok b_id, d1) →
  author d1 = author d ∧ subject d1 = subject d ∧
  book_author d1 = book_author d ∧ book_subject d1 = book_subject d ∧
  ∀ d', book d' = book d1 → book_step self d' = (Ok b_id, d').
Proof.
  unfold book_step, lookup_book_id, insert_book.
  destruct (head _) as [id|] eqn:Hlook.
  { intros [= <- <-]. split_and!; try done. intros d' Hbook. by rewrite Hbook, Hlook. }
  apply head_fmap_None in Hlook.
  case_bool_decide as Hisbn; [done|]. case_bool_decide as Hurl; simpl.
  - intros [= <- <-]. split_and!; try done. intros d' Hbook.
    rewrite Hbook, Hlook. simpl.
    by rewrite (bool_decide_eq_false_2 _ Hisbn), (bool_decide_eq_true_2 _ Hurl).
  - intros [= <- <-]. simpl. split_and!; try done. intros d' Hbook.
    rewrite Hbook, filter_app, Hlook. simpl. by rewrite filter_cons, decide_True.
Qed.

Lemma book_step_failed self d e d1 : book_step self d = (Raise e, d1) → d1 = d.
Proof.
  unfold book_step. destruct (lookup_book_id _ d); [done|].
  destruct (insert_book _ _ _ _ _ d); by intros [= _ <-].
Qed.

Lemma save_summary_again self d :
  save_summary self (save_summary self d).2 = save_summary self d.
Proof.
  unfold save_summary at 2 3.
  destruct (book_step self d) as [[b_id|e] d1] eqn:Hbook; simpl.
  2:{ unfold save_summary. apply book_step_failed in Hbook as Hd. subst d1.
      by rewrite Hbook. }
  destruct (book_step_spec _ _ _ _ Hbook) as (_ & _ & _ & _ & Hagain).
  pose proof (run_steps_extends (author_step b_id)
                (λ x d, proj1 (author_step_spec b_id x d)) (Book.authors self) d1) as Hext2.
  pose proof (run_steps_settles (author_step b_id) (author_settled b_id)
                (λ x d, proj1 (author_step_spec b_id x d))
                (λ x d, proj1 (proj2 (author_step_spec b_id x d)))
                (λ x d d', author_settled_extends b_id d d' x)
                (Book.authors self) d1) as Hset2.
  pose proof (run_steps_again (author_step b_id) (author_settled b_id)
                (λ x d, proj1 (author_step_spec b_id x d))
                (λ x d, proj1 (proj2 (author_step_spec b_id x d)))
                (λ x d, proj2 (proj2 (author_step_spec b_id x d)))
                (λ x d, author_step_settled b_id x d)
                (λ x d d', author_settled_extends b_id d d' x)
                (Book.authors self) d1) as Hagain2.
  destruct (run_steps (author_step b_id) (Book.authors self) d1) as [[[]|e] d2]; simpl in *.
  2:{ unfold save_summary. rewrite (Hagain d2) by apply Hext2. by rewrite Hagain2. }
  pose proof (run_steps_extends (subject_step b_id)
                (λ x d, proj1 (subject_step_spec b_id x d))
                (elements (Book.subjects self)) d2) as Hext3.
  pose proof (run_steps_again (subject_step b_id) (subject_settled b_id)
                (λ x d, proj1 (subject_step_spec b_id x d))
                (λ x d, proj1 (proj2 (subject_step_spec b_id x d)))
                (λ x d, proj2 (proj2 (subject_step_spec b_id x d)))
                (λ x d, subject_step_settled b_id x d)
                (λ x d d', subject_settled_extends b_id d d' x)
                (elements (Book.subjects self)) d2) as Hagain3.
  set (d3 := (run_steps (subject_step b_id) (elements (Book.subjects self)) d2).2) in *.
  unfold save_summary.
  rewrite (Hagain d3) by (etrans; [apply Hext3|apply Hext2]).
  rewrite (run_steps_settled (author_step b_id) (author_settled b_id)
             (λ x d, author_step_settled b_id x d) (Book.authors self) d3).
  - done.
  - eapply Forall_impl; [by apply Hset2|]. intros a. by apply author_settled_extends.
Qed.

(** C2: the engine failing nothing, a second [save] of the same book
    gives the outcome of the first and leaves every table as the first
    left it. *)
Theorem save_idempotent (self : Book.t) (d : database) :
  Book.save self None (Book.save self None d).2 = Book.save self None d.
Proof. rewrite !save_quiet. apply save_summary_again. Qed.

(** * Saving, then loading *)

Section Join.
Context {R V : Type} (rid : R → Z) (val : R → V).

Lemma filter_none {A} (P : A → Prop) `{!∀ x, Decision (P x)} (l : list A) :
  (∀ x, x ∈ l → ¬ P x) → filter P l = [].
Proof.
  induction l as [|x l IH]; intros Hnot; [done|].
  rewrite filter_cons, decide_False by (apply Hnot; left).
  apply IH. intros y Hy. apply Hnot. by right.
Qed.

Lemma filter_unique_id (table : list R) (r : R) :
  NoDup (rid <$> table) → r ∈ table → filter (λ r', rid r' = rid r) table = [r].
Proof.
  induction table as [|x t IH]; intros Hnd Hin; [by apply elem_of_nil in Hin|].
  rewrite fmap_cons in Hnd. apply NoDup_cons in Hnd as [Hx Hnd]. rewrite filter_cons.
  apply elem_of_cons in Hin as [->|Hin].
  - rewrite decide_True by done. f_equal. apply filter_none.
    intros y Hy Heq. apply Hx. rewrite <- Heq. by apply list_elem_of_fmap_2.
  - rewrite decide_False; [by apply IH|].
    intros Heq. apply Hx. rewrite Heq. by apply list_elem_of_fmap_2.
Qed.

Lemma bind_singleton_fmap (l : list R) : (r ← l; [val r]) = val <$> l.
Proof. induction l as [|x l IH]; [done|]. rewrite bind_cons, fmap_cons. by rewrite IH. Qed.

Lemma join_no_links b_id links table :
  (∀ l, l ∈ links → l.1 ≠ b_id) → join rid val b_id links table = [].
Proof. intros Hnot. unfold join. by rewrite filter_none. Qed.

Lemma join_table_snoc b_id links table r :
  (∀ l, l ∈ links → l.2 ≠ rid r) →
  join rid val b_id links (table ++ [r]) = join rid val b_id links table.
Proof.
  intros Hnot. unfold join. apply Forall_bind_ext, Forall_forall.
  intros l [_ Hl]%list_elem_of_filter.
  rewrite filter_app, filter_cons, filter_nil.
  rewrite decide_False by (intros Heq; by apply (Hnot l Hl)).
  by rewrite app_nil_r.
Qed.

Lemma join_links_snoc b_id links table x :
  join rid val b_id (links ++ [(b_id, x)]) table =
    join rid val b_id links table ++ (val <$> filter (λ r, rid r = x) table).
Proof.
  unfold join. rewrite filter_app, bind_app, filter_cons, filter_nil.
  rewrite decide_True by done. rewrite bind_singleton. simpl.
  by rewrite bind_singleton_fmap.
Qed.

Lemma elem_of_join b_id links table x r :
  (b_id, x) ∈ links → r ∈ table → rid r = x → val r ∈ join rid val b_id links table.
Proof.
  intros Hl Hr Hid. unfold join. apply list_elem_of_bind. exists (b_id, x). split.
  - apply list_elem_of_bind. exists r. split; [left|]. by apply list_elem_of_filter.
  - by apply list_elem_of_filter.
Qed.

End Join.

Lemma authors_of_book_join b_id d :
  authors_of_book b_id d =
    join author_id (λ a, (author_url a, author_name a)) b_id (book_author d) (author d).
Proof. done. Qed.

Lemma subjects_of_book_join b_id d :
  subjects_of_book b_id d = join subject_id sub_name b_id (book_subject d) (subject d).
Proof. done. Qed.

Lemma author_found_fresh a d :
  well_formed d → agrees d a →
  well_formed (author_found a d).2 ∧
  book (author_found a d).2 = book d ∧
  subject (author_found a d).2 = subject d ∧
  book_author (author_found a d).2 = book_author d ∧
  book_subject (author_found a d).2 = book_subject d ∧
  AuthorRow (author_found a d).1 (Author.url a) (Author.name a) ∈ author (author_found a d).2 ∧
  (∀ b_id, authors_of_book b_id (author_found a d).2 = authors_of_book b_id d) ∧
  (∀ a', Author.url a' ≠ Author.url a → agrees d a' → agrees (author_found a d).2 a').
Proof.
  intros Hwf Hagrees. unfold author_found.
  destruct (lookup_author_id (Author.url a) d) as [a_id|] eqn:Hlook; simpl.
  { split_and!; try done.
    apply head_fmap_filter_Some in Hlook as (row & Hin & Hurl & Hid).
    specialize (Hagrees row Hin Hurl). destruct row; simpl in *. by subst. }
  pose proof (lookup_author_id_None _ _ Hlook) as Hnew.
  rewrite (insert_author_new _ _ _ Hnew). simpl. split_and!; try done.
  - eapply insert_author_well_formed; [done|]. by apply insert_author_new.
  - apply elem_of_app. right. left.
  - intros b_id. rewrite !authors_of_book_join. simpl. apply join_table_snoc.
    intros l Hl. simpl. destruct Hwf as [_ _ _ _ [Hrefs _]].
    rewrite Forall_forall in Hrefs. destruct (Hrefs l Hl) as [_ Hid].
    intros Heq. rewrite Heq in Hid. by apply next_rowid_fresh in Hid.
  - intros a' Hurl Ha' row Hin Hrow. simpl in Hin.
    apply elem_of_app in Hin as [Hin|Hin%list_elem_of_singleton]; [by apply Ha'|].
    subst row. simpl in *. congruence.
Qed.

Lemma author_step_fresh b_id a d :
  well_formed d → b_id ∈ book_ids d → agrees d a →
  Author.url a ∉ (authors_of_book b_id d).*1 →
  ∃ d', author_step b_id a d = (Ok (), d') ∧ well_formed d' ∧
        book d' = book d ∧ subject d' = subject d ∧ book_subject d' = book_subject d ∧
        authors_of_book b_id d' =
          authors_of_book b_id d ++ [(Author.url a, Author.name a)] ∧
        (∀ a', Author.url a' ≠ Author.url a → agrees d a' → agrees d' a').
Proof.
  intros Hwf Hb Hagrees Hnew.
  destruct (author_found_fresh a d Hwf Hagrees)
    as (Hwf1 & Hbook & Hsubject & Hlinks & Hbs & Hrow & Hjoin & Hkeep).
  rewrite author_step_unfold. destruct (author_found a d) as [a_id d1]. simpl in *.
  assert ((b_id, a_id) ∉ book_author d1) as Hnolink.
  { intros Hin. apply Hnew. rewrite <- (Hjoin b_id), authors_of_book_join.
    apply list_elem_of_fmap. exists (Author.url a, Author.name a). split; [done|].
    by apply (elem_of_join author_id (λ r, (author_url r, author_name r))
                b_id _ _ a_id (AuthorRow a_id (Author.url a) (Author.name a))). }
  assert (a_id ∈ author_ids d1) as Ha
    by (by apply (list_elem_of_fmap_2 author_id) in Hrow).
  assert (b_id ∈ book_ids d1) as Hb1 by (unfold book_ids; by rewrite Hbook).
  destruct (insert_book_author_cases b_id a_id d1 Hb1 Ha) as [Hins|Hins].
  { unfold insert_book_author in Hins. rewrite bool_decide_eq_false_2 in Hins by done.
    by destruct (_ && _). }
  rewrite Hins. simpl. eexists. split; [done|]. split_and!; simpl; try done.
  - by eapply insert_book_author_well_formed.
  - rewrite <- (Hjoin b_id), !authors_of_book_join. simpl. rewrite join_links_snoc.
    f_equal.
    pose proof (filter_unique_id author_id (author d1)
                  (AuthorRow a_id (Author.url a) (Author.name a))) as Hone.
    simpl in Hone. rewrite Hone; [done| |done].
    by destruct Hwf1 as [_ _ [? _] _ _].
Qed.

Lemma authors_loop b_id (todo : list Author.t) :
  ∀ d, well_formed d → b_id ∈ book_ids d →
       NoDup (Author.url <$> todo) → Forall (agrees d) todo →
       (∀ a, a ∈ todo → Author.url a ∉ (authors_of_book b_id d).*1) →
  ∃ d', run_steps (author_step b_id) todo d = (Ok (), d') ∧ well_formed d' ∧
        book d' = book d ∧ subject d' = subject d ∧ book_subject d' = book_subject d ∧
        authors_of_book b_id d' =
          authors_of_book b_id d ++ ((λ a, (Author.url a, Author.name a)) <$> todo).
Proof.
  induction todo as [|a todo IH]; intros d Hwf Hb Hnd Hagree Hnew; simpl.
  { exists d. split_and!; try done. by rewrite app_nil_r. }
  rewrite fmap_cons in Hnd. apply NoDup_cons in Hnd as [Ha Hnd].
  apply Forall_cons in Hagree as [Hagree_a Hagree].
  destruct (author_step_fresh b_id a d Hwf Hb Hagree_a (Hnew a ltac:(left)))
    as (d1 & -> & Hwf1 & Hbook1 & Hsub1 & Hbs1 & Hjoin1 & Hkeep1).
  destruct (IH d1) as (d' & Hrun & Hwf' & Hbook' & Hsub' & Hbs' & Hjoin'); try done.
  - unfold book_ids. by rewrite Hbook1.
  - rewrite Forall_forall in Hagree. apply Forall_forall. intros a' Ha'.
    apply Hkeep1; [|by apply Hagree].
    intros Heq. apply Ha. rewrite <- Heq. by apply list_elem_of_fmap_2.
  - intros a' Ha'. rewrite Hjoin1, fmap_app. intros [Hin|Hin]%elem_of_app.
    + by apply (Hnew a' ltac:(by right)).
    + simpl in Hin. apply list_elem_of_singleton in Hin.
      apply Ha. rewrite <- Hin. by apply list_elem_of_fmap_2.
  - exists d'. split_and!; try congruence.
    rewrite Hjoin', Hjoin1, <- app_assoc. done.
Qed.

Lemma subject_found_fresh name d :
  well_formed d →
  well_formed (subject_found name d).2 ∧
  book (subject_found name d).2 = book d ∧
  author (subject_found name d).2 = author d ∧
  book_author (subject_found name d).2 = book_author d ∧
  book_subject (subject_found name d).2 = book_subject d ∧
  SubjectRow (subject_found name d).1 name ∈ subject (subject_found name d).2 ∧
  (∀ b_id, subjects_of_book b_id (subject_found name d).2 = subjects_of_book b_id d).
Proof.
  intros Hwf. unfold subject_found.
  destruct (lookup_subject_id name d) as [s_id|] eqn:Hlook; simpl.
  { split_and!; try done.
    apply head_fmap_filter_Some in Hlook as (row & Hin & Hname & Hid).
    destruct row; simpl in *. by subst. }
  pose proof (lookup_subject_id_None _ _ Hlook) as Hnew.
  rewrite (insert_subject_new _ _ Hnew). simpl. split_and!; try done.
  - eapply insert_subject_well_formed; [done|]. by apply insert_subject_new.
  - apply elem_of_app. right. left.
  - intros b_id. rewrite !subjects_of_book_join. simpl. apply join_table_snoc.
    intros l Hl. simpl. destruct Hwf as [_ _ _ _ [_ Hrefs]].
    rewrite Forall_forall in Hrefs. destruct (Hrefs l Hl) as [_ Hid].
    intros Heq. rewrite Heq in Hid. by apply next_rowid_fresh in Hid.
Qed.

Lemma subject_step_fresh b_id name d :
  well_formed d → b_id ∈ book_ids d → name ∉ subjects_of_book b_id d →
  ∃ d', subject_step b_id name d = (Ok (), d') ∧ well_formed d' ∧
        book d' = book d ∧ author d' = author d ∧ book_author d' = book_author d ∧
        subjects_of_book b_id d' = subjects_of_book b_id d ++ [name].
Proof.
  intros Hwf Hb Hnew.
  destruct (subject_found_fresh name d Hwf)
    as (Hwf1 & Hbook & Hauthor & Hba & Hlinks & Hrow & Hjoin).
  rewrite subject_step_unfold. destruct (subject_found name d) as [s_id d1]. simpl in *.
  assert ((b_id, s_id) ∉ book_subject d1) as Hnolink.
  { intros Hin. apply Hnew. rewrite <- (Hjoin b_id), subjects_of_book_join.
    by apply (elem_of_join subject_id sub_name b_id _ _ s_id (SubjectRow s_id name)). }
  assert (s_id ∈ subject_ids d1) as Hs
    by (by apply (list_elem_of_fmap_2 subject_id) in Hrow).
  assert (b_id ∈ book_ids d1) as Hb1 by (unfold book_ids; by rewrite Hbook).
  destruct (insert_book_subject_cases b_id s_id d1 Hb1 Hs) as [Hins|Hins].
  { unfold insert_book_subject in Hins. rewrite bool_decide_eq_false_2 in Hins by done.
    by destruct (_ && _). }
  rewrite Hins. simpl. eexists. split; [done|]. split_and!; simpl; try done.
  - by eapply insert_book_subject_well_formed.
  - rewrite <- (Hjoin b_id), !subjects_of_book_join. simpl. rewrite join_links_snoc.
    f_equal.
    pose proof (filter_unique_id subject_id (subject d1) (SubjectRow s_id name)) as Hone.
    simpl in Hone. rewrite Hone; [done| |done].
    by destruct Hwf1 as [_ _ _ [? _] _].
Qed.

Lemma subjects_loop b_id (todo : list string) :
  ∀ d, well_formed d → b_id ∈ book_ids d → NoDup todo →
       (∀ name, name ∈ todo → name ∉ subjects_of_book b_id d) →
  ∃ d', run_steps (subject_step b_id) todo d = (Ok (), d') ∧ well_formed d' ∧
        book d' = book d ∧ author d' = author d ∧ book_author d' = book_author d ∧
        subjects_of_book b_id d' = subjects_of_book b_id d ++ todo.
Proof.
  induction todo as [|name todo IH]; intros d Hwf Hb Hnd Hnew; simpl.
  { exists d. split_and!; try done. by rewrite app_nil_r. }
  apply NoDup_cons in Hnd as [Hname Hnd].
  destruct (subject_step_fresh b_id name d Hwf Hb (Hnew name ltac:(left)))
    as (d1 & -> & Hwf1 & Hbook1 & Hauthor1 & Hba1 & Hjoin1).
  destruct (IH d1) as (d' & Hrun & Hwf' & Hbook' & Hauthor' & Hba' & Hjoin'); try done.
  - unfold book_ids. by rewrite Hbook1.
  - intros name' Hname'. rewrite Hjoin1. intros [Hin|Hin]%elem_of_app.
    + by apply (Hnew name' ltac:(by right)).
    + apply list_elem_of_singleton in Hin. by subst.
  - exists d'. split_and!; try congruence.
    rewrite Hjoin', Hjoin1, <- app_assoc. done.
Qed.

Lemma book_step_new self d :
  Book.isbn self ∉ book_isbn <$> book d → Book.url self ∉ book_url <$> book d →
  book_step self d =
    (Ok (next_rowid (book_ids d)),
     Database (book d ++ [BookRow (next_rowid (book_ids d)) (Book.url self) (Book.isbn self)
                            (Book.title self) (Book.subtitle self) (Book.cover_url self)])
       (author d) (subject d) (book_author d) (book_subject d)).
Proof.
  intros Hisbn Hurl. unfold book_step, lookup_book_id, insert_book.
  rewrite (bool_decide_eq_false_2 _ Hisbn), (bool_decide_eq_false_2 _ Hurl).
  rewrite filter_none; [done|].
  intros row Hrow Heq. apply Hisbn. rewrite <- Heq. by apply list_elem_of_fmap_2.
Qed.

Lemma authors_round_trip (authors : list Author.t) :
  (λ r : string * string, Author.new r.1 r.2) <$>
    ((λ a, (Author.url a, Author.name a)) <$> authors) = authors.
Proof.
  rewrite <- list_fmap_compose. rewrite <- (list_fmap_id authors) at 2.
  apply list_fmap_ext. by intros _ [] _.
Qed.

Lemma save_then_from_db_summary self d :
  well_formed d →
  Book.isbn self ∉ book_isbn <$> book d → Book.url self ∉ book_url <$> book d →
  NoDup (Author.url <$> Book.authors self) → Forall (agrees d) (Book.authors self) →
  ∃ d', save_summary self d = (Ok (), d') ∧ from_db_summary (Book.isbn self) d' = Ok self.
Proof.
  intros Hwf Hisbn Hurl Hnd Hagree. unfold save_summary.
  rewrite (book_step_new self d Hisbn Hurl).
  set (b_id := next_rowid (book_ids d)).
  set (row := BookRow b_id (Book.url self) (Book.isbn self) (Book.title self)
                (Book.subtitle self) (Book.cover_url self)).
  set (d1 := Database (book d ++ [row]) (author d) (subject d) (book_author d)
               (book_subject d)).
  assert (well_formed d1) as Hwf1.
  { eapply insert_book_well_formed; [exact Hwf|]. unfold insert_book.
    by rewrite (bool_decide_eq_false_2 _ Hisbn), (bool_decide_eq_false_2 _ Hurl). }
  assert (b_id ∈ book_ids d1) as Hb.
  { unfold book_ids. simpl. rewrite fmap_app. apply elem_of_app. right. left. }
  assert (authors_of_book b_id d1 = []) as Hno_authors.
  { rewrite authors_of_book_join. apply join_no_links. intros l Hl Heq.
    destruct Hwf as [_ _ _ _ [Hrefs _]]. rewrite Forall_forall in Hrefs.
    destruct (Hrefs l Hl) as [Hid _]. rewrite Heq in Hid.
    by apply next_rowid_fresh in Hid. }
  assert (subjects_of_book b_id d1 = []) as Hno_subjects.
  { rewrite subjects_of_book_join. apply join_no_links. intros l Hl Heq.
    destruct Hwf as [_ _ _ _ [_ Hrefs]]. rewrite Forall_forall in Hrefs.
    destruct (Hrefs l Hl) as [Hid _]. rewrite Heq in Hid.
    by apply next_rowid_fresh in Hid. }
  destruct (authors_loop b_id (Book.authors self) d1 Hwf1 Hb Hnd)
    as (d2 & -> & Hwf2 & Hbook2 & Hsub2 & Hbs2 & Hjoin2).
  { done. }
  { intros a _. rewrite Hno_authors. apply not_elem_of_nil. }
  assert (subjects_of_book b_id d2 = []) as Hno_subjects2.
  { rewrite subjects_of_book_join, Hsub2, Hbs2. by rewrite <- subjects_of_book_join. }
  destruct (subjects_loop b_id (elements (Book.subjects self)) d2 Hwf2)
    as (d3 & -> & Hwf3 & Hbook3 & Hauthor3 & Hba3 & Hjoin3).
  { unfold book_ids. by rewrite Hbook2. }
  { apply NoDup_elements. }
  { intros name _. rewrite Hno_subjects2. apply not_elem_of_nil. }
  exists d3. split; [done|]. unfold from_db_summary.
  rewrite Hbook3, Hbook2. simpl. rewrite filter_app, filter_none.
  2:{ intros r Hr Heq. apply Hisbn. rewrite <- Heq. by apply list_elem_of_fmap_2. }
  rewrite filter_cons, decide_True by done. simpl.
  rewrite Hjoin3, Hno_subjects2. simpl.
  rewrite (authors_of_book_join b_id d3), Hauthor3, Hba3, <- authors_of_book_join.
  rewrite Hjoin2, Hno_authors. simpl.
  rewrite authors_round_trip, list_to_set_elements_L. by destruct self.
Qed.

(** C3: in a store that satisfies the schema and holds neither the isbn
    nor the url of the book, a book whose authors have pairwise distinct
    urls, each of them unknown to the store or stored under the same
    name, is saved and then loaded back equal up to the order of its
    authors, its subjects equal as sets; the engine fails nothing. *)
Theorem save_then_from_db (self : Book.t) (d : database) :
  well_formed d →
  Book.isbn self ∉ book_isbn <$> book d → Book.url self ∉ book_url <$> book d →
  NoDup (Author.url <$> Book.authors self) → Forall (agrees d) (Book.authors self) →
  (Book.save self None d).1 = Ok () ∧
  ∃ loaded,
    (Book.from_db (Book.IsbnStr (Book.isbn self)) None (Book.save self None d).2).1 =
      Ok loaded ∧
    Book.url loaded = Book.url self ∧ Book.isbn loaded = Book.isbn self ∧
    Book.title loaded = Book.title self ∧ Book.subtitle loaded = Book.subtitle self ∧
    Book.cover_url loaded = Book.cover_url self ∧
    Book.authors loaded ≡ₚ Book.authors self ∧
    Book.subjects loaded = Book.subjects self.
Proof.
  intros Hwf Hisbn Hurl Hnd Hagree.
  destruct (save_then_from_db_summary self d Hwf Hisbn Hurl Hnd Hagree) as (d' & Hsave & Hload).
  rewrite save_quiet, Hsave, from_db_quiet. simpl. split; [done|].
  exists self. by rewrite Hload.
Qed.

Lemma save_then_from_db_witness :
  (Book.save second_book None (Book.save sample_book None empty).2).1 = Ok () ∧
  ∃ loaded,
    (Book.from_db (Book.IsbnStr (Book.isbn second_book)) None
       (Book.save second_book None (Book.save sample_book None empty).2).2).1 = Ok loaded ∧
    Book.authors loaded ≡ₚ Book.authors second_book ∧
    Book.subjects loaded = Book.subjects second_book.
Proof.
  destruct (save_then_from_db second_book (Book.save sample_book None empty).2)
    as (Hsaved & loaded & Hloaded & _ & _ & _ & _ & _ & Hauthors & Hsubjects).
  - apply save_well_formed, empty_well_formed.
  - apply (bool_decide_unpack _). by vm_compute.
  - apply (bool_decide_unpack _). by vm_compute.
  - apply NoDup_singleton.
  - apply Forall_singleton. intros row Hrow _.
    assert (author (Book.save sample_book None empty).2 =
            [AuthorRow 1 "https://ol/a1" "A. Author"]) as Hrows by by vm_compute.
    rewrite Hrows in Hrow. apply list_elem_of_singleton in Hrow. by subst.
  - split; [exact Hsaved|]. exists loaded.
    exact (conj Hloaded (conj Hauthors Hsubjects)).
Defined.

(** C3, as stated, fails: [renamed_author_book] is new to the store that
    holds [sample_book], whose author it names differently; the store
    keeps the name it has, and the loaded book carries that name. *)
Lemma round_trip_renames_author :
  ¬ (∀ (self : Book.t) (d : database),
       reachable d →
       Book.isbn self ∉ book_isbn <$> book d → Book.url self ∉ book_url <$> book d →
       ∃ loaded,
         (Book.from_db (Book.IsbnStr (Book.isbn self)) None (Book.save self None d).2).1 =
           Ok loaded ∧
         Book.authors loaded ≡ₚ Book.authors self).
Proof.
  intros H.
  destruct (H renamed_author_book (Book.save sample_book None empty).2)
    as (loaded & Hloaded & Hauthors).
  - apply reachable_save, reachable_empty.
  - apply (bool_decide_unpack _). by vm_compute.
  - apply (bool_decide_unpack _). by vm_compute.
  - assert (Book.authors loaded = [sample_author]) as Hkept.
    { assert (∀ b,
        (Book.from_db (Book.IsbnStr (Book.isbn renamed_author_book)) None
           (Book.save renamed_author_book None (Book.save sample_book None empty).2).2).1 =
          Ok b →
        Book.authors b = [sample_author]) as Hb.
      { intros b. vm_compute. by intros [= <-]. }
      exact (Hb loaded Hloaded). }
    rewrite Hkept in Hauthors. apply Permutation_singleton_l in Hauthors.
    discriminate Hauthors.
Qed.

(** * The transactional scope, continued *)

Lemma steady_execute st : steady (execute st).
Proof.
  intros c. unfold execute, mbind, M_bind.
  destruct (issue_same_tables st c) as (_ & Hu & _).
  destruct (issue st c) as [[[]|e] c1]; simpl in *; [|done].
  unfold perform. by destruct (run st (store c1)).
Qed.

Lemma steady_bind {A B} (m : M A) (k : A → M B) :
  steady m → (∀ x, steady (k x)) → steady (m ≫= k).
Proof.
  intros Hm Hk c. specialize (Hm c). unfold mbind, M_bind.
  destruct (m c) as [[x|e] c1]; simpl in *; [|done]. by rewrite Hk.
Qed.

(** The scope is atomic for a body that neither commits nor rolls back
    itself: it ends with no transaction open; when it raises, the tables
    are those of before the scope; when it returns, they are those the
    body left. *)
Theorem transaction_atomic {A} (body : M A) (c : connection) :
  undo c = None → steady body →
  undo (transaction body c).2 = None ∧
  (∀ e, (transaction body c).1 = Raise e → store (transaction body c).2 = store c) ∧
  (∀ x, (transaction body c).1 = Ok x →
        store (transaction body c).2 = store (body (begin c).2).2).
Proof.
  intros Hu Hbody. unfold transaction, begin, mbind, M_bind.
  destruct (issue_same_tables Begin c) as (Hs0 & Hu0 & _).
  destruct (issue Begin c) as [[[]|e0] c0]; simpl in *.
  2:{ split_and!; [congruence|by intros e _|done]. }
  rewrite Hu0, Hu. unfold try_except_else.
  match goal with |- context [body ?c1] =>
    pose proof (Hbody c1) as Hsteady; destruct (body c1) as [[x|e] c2] eqn:Hb end;
    simpl in *.
  - split_and!; [done|done|]. intros x' _. by rewrite Hb.
  - rewrite Hsteady. simpl. split_and!; [done|by intros e' _|done].
Qed.

Lemma transaction_atomic_witness :
  (transaction
     (execute (InsertBook "https://ol/b1" "9780226550275" "T" None None);;
      execute (InsertBookAuthor 7 7))
     (connect empty None)).1 = Raise (IntegrityError ForeignKeyViolation) ∧
  store (transaction
     (execute (InsertBook "https://ol/b1" "9780226550275" "T" None None);;
      execute (InsertBookAuthor 7 7))
     (connect empty None)).2 = empty.
Proof.
  split; [by vm_compute|].
  refine (proj1 (proj2 (transaction_atomic _ (connect empty None) eq_refl _)) _ _).
  - apply steady_bind; [apply steady_execute|intros _; apply steady_execute].
  - by vm_compute.
Defined.

(** The scope is not reentrant: on a connection with a transaction open
    it raises at BEGIN, does not run its body, and leaves the tables and
    the open transaction as they are. *)
Theorem transaction_not_reentrant {A} (body : M A) (c : connection) (snapshot : database) :
  undo c = Some snapshot →
  (transaction body c).1 = Raise (OperationalError Begin) ∧
  same_tables c (transaction body c).2 ∧
  issued (transaction body c).2 = issued c ++ [Begin].
Proof.
  intros Hu. unfold transaction, begin, mbind, M_bind.
  pose proof (issue_same_tables Begin c) as Hsame.
  pose proof (issue_raises Begin c) as Hraise.
  pose proof (issue_issued Begin c) as Hlog.
  destruct (issue Begin c) as [[[]|e0] c0]; simpl in *.
  - destruct Hsame as (Hs0 & Hu0 & Hl0). rewrite Hu0, Hu. simpl.
    by repeat split.
  - by rewrite (Hraise e0 eq_refl).
Qed.

Lemma transaction_not_reentrant_witness :
  (transaction (transaction (execute (InsertAuthor "https://ol/a1" "A. Author")))
     (connect empty None)).1 = Raise (OperationalError Begin).
Proof.
  assert (transaction (transaction (execute (InsertAuthor "https://ol/a1" "A. Author")))
            (connect empty None) =
          (rollback;; raise (OperationalError Begin))
            (transaction (execute (InsertAuthor "https://ol/a1" "A. Author"))
               (begin (connect empty None)).2).2) as ->.
  { unfold transaction at 1. unfold mbind, M_bind at 1. simpl.
    unfold try_except_else.
    destruct (transaction_not_reentrant
                (execute (InsertAuthor "https://ol/a1" "A. Author"))
                (begin (connect empty None)).2 empty eq_refl) as (Hr & _).
    destruct (transaction _ (begin (connect empty None)).2) as [r c2].
    simpl in Hr. by subst r. }
  done.
Defined.

(** * The session, continued *)



(** * [save] only appends *)

Lemma grows_refl d : grows d d.
Proof. by repeat split. Qed.

Lemma grows_trans d1 d2 d3 : grows d1 d2 → grows d2 d3 → grows d1 d3.
Proof. intros (?&?&?&?&?) (?&?&?&?&?). split_and!; by etrans. Qed.

Lemma run_grows st d d' rowid : run st d = Inserted d' rowid → grows d d'.
Proof.
  destruct st; simpl; try done.
  - unfold insert_book. repeat case_bool_decide; try done. intros [= <- _].
    split_and!; simpl; try done. by apply prefix_app_r.
  - unfold insert_author. case_bool_decide; try done. intros [= <- _].
    split_and!; simpl; try done. by apply prefix_app_r.
  - unfold insert_book_author. repeat case_bool_decide; simpl; try done; intros [= <- _].
    split_and!; simpl; try done. by apply prefix_app_r.
  - unfold insert_subject. case_bool_decide; try done. intros [= <- _].
    split_and!; simpl; try done. by apply prefix_app_r.
  - unfold insert_book_subject. repeat case_bool_decide; simpl; try done; intros [= <- _].
    split_and!; simpl; try done. by apply prefix_app_r.
Qed.

Lemma execute_grows d st : keeps (grows d) (execute st).
Proof.
  apply keeps_execute. intros d1 d2 rowid Hd1 Hrun.
  eapply grows_trans; [done|]. by eapply run_grows.
Qed.

Lemma save_grows self failing d : grows d (Book.save self failing d).2.
Proof.
  unfold Book.save. apply (db_conn_keeps (grows d)); [|apply grows_refl].
  unfold Book.save_body, Book.save_book, Book.save_author, Book.save_subject,
    Book.find_or_create_author, Book.find_or_create_subject.
  keeps_steps (execute_grows d).
Qed.

(** Whatever the engine fails, [save] deletes and changes no row: every
    table of the file before the call is the beginning of the same table
    after it. *)
Theorem save_only_appends (self : Book.t) (failing : option nat) (d : database) :
  grows d (Book.save self failing d).2.
Proof. apply save_grows. Qed.

(** * Referential integrity *)

(** In every store reachable from the empty one, whatever the engine
    failed on the way, each link points to a book row and to an author or
    subject row that exist, and the ids of a table are positive and
    pairwise distinct. *)
Theorem reachable_integrity (d : database) :
  reachable d →
  references d ∧ row_ids (book_ids d) ∧ row_ids (author_ids d) ∧ row_ids (subject_ids d).
Proof. intros Hd. by destruct (reachable_well_formed d Hd). Qed.

Lemma reachable_integrity_witness :
  references (Book.save url_rival (Some 9%nat) (Book.save sample_book None empty).2).2.
Proof.
  refine (proj1 (reachable_integrity _ _)).
  do 2 apply reachable_save. apply reachable_empty.
Defined.

(** * The resolver and the fetcher, continued *)

(** [find_isbn] raises exactly what the constructor raises for the first
    candidate, [IndexError] and [NotValidISBNError] excepted. *)
Theorem find_isbn_raises (get_isbnlike : string → list string)
    (Isbn_new : string → result Isbn) (text : string) (e : exn) :
  find_isbn get_isbnlike Isbn_new text = Raise e ↔
  ∃ isbnlike rest,
    get_isbnlike text = isbnlike :: rest ∧ Isbn_new isbnlike = Raise e ∧
    e ≠ IndexError ∧ ∀ s, e ≠ NotValidISBNError s.
Proof.
  unfold find_isbn. split.
  - destruct (get_isbnlike text) as [|m rest]; simpl; [done|].
    destruct (Isbn_new m) as [i|e'] eqn:Hnew; [done|].
    destruct e'; try done; intros [= <-]; exists m, rest; by repeat split.
  - intros (m & rest & -> & Hnew & Hindex & Hvalid). simpl. rewrite Hnew.
    destruct e; try done. by destruct (Hvalid isbnlike).
Qed.

(** With a response at hand, [fetch_openlibrary_book] returns the record
    stored under the key and prints nothing; when the body is not JSON or
    lacks the key it prints the key, the url, the status and the headers
    and raises the decoder's exception, or [KeyError] with the key. *)
Theorem fetch_with_response {Record_ : Type}
    (httpx_get : string → result (@response Record_)) (isbn : Isbn)
    (resp : @response Record_) :
  httpx_get (request_url (bibkey isbn)) = Ok resp →
  fetch_openlibrary_book httpx_get isbn =
    let failure e :=
      ([PrintStr (bibkey isbn); PrintStr (request_url (bibkey isbn));
        PrintInt (status_code resp); PrintHeaders (headers resp)], Raise e) in
    match json resp with
    | Raise e => failure e
    | Ok resp_data =>
        match resp_data !! bibkey isbn with
        | Some book => ([], Ok book)
        | None => failure (KeyError (bibkey isbn))
        end
    end.
Proof.
  intros Hget. unfold fetch_openlibrary_book, fetch_attempt. rewrite Hget.
  destruct (json resp) as [data|e]; [|done]. by destruct (data !! bibkey isbn).
Qed.

Lemma fetch_with_response_witness :
  fetch_openlibrary_book sample_service {| canonical := "9780140449136" |} =
    ([PrintStr "ISBN:9780140449136";
      PrintStr "https://openlibrary.org/api/books?bibkeys=ISBN:9780140449136&format=json&jscmd=data";
      PrintInt 200; PrintHeaders []],
     Raise (KeyError "ISBN:9780140449136")).
Proof.
  exact (fetch_with_response sample_service {| canonical := "9780140449136" |} _ eq_refl).
Defined.

(** * When [save] succeeds *)

Lemma author_step_ok b_id a d :
  b_id ∈ book_ids d →
  (author_step b_id a d).1 = Ok () ∧ b_id ∈ book_ids (author_step b_id a d).2.
Proof.
  intros Hb. destruct (author_step_spec b_id a d) as ((Hbook & _) & _ & _).
  split; [|unfold book_ids; by rewrite Hbook].
  destruct (author_found_spec a d) as ((Hbook1 & _) & Hlook & _).
  rewrite author_step_unfold. destruct (author_found a d) as [a_id d1]. simpl in *.
  apply head_fmap_filter_Some in Hlook as (row & Hin & _ & Hid).
  destruct (insert_book_author_cases b_id a_id d1) as [-> | ->]; try done.
  - unfold book_ids. by rewrite Hbook1.
  - rewrite <- Hid. by apply list_elem_of_fmap_2.
Qed.

Lemma subject_step_ok b_id name d :
  b_id ∈ book_ids d →
  (subject_step b_id name d).1 = Ok () ∧ b_id ∈ book_ids (subject_step b_id name d).2.
Proof.
  intros Hb. destruct (subject_step_spec b_id name d) as ((Hbook & _) & _ & _).
  split; [|unfold book_ids; by rewrite Hbook].
  destruct (subject_found_spec name d) as ((Hbook1 & _) & Hlook & _).
  rewrite subject_step_unfold. destruct (subject_found name d) as [s_id d1]. simpl in *.
  apply head_fmap_filter_Some in Hlook as (row & Hin & _ & Hid).
  destruct (insert_book_subject_cases b_id s_id d1) as [-> | ->]; try done.
  - unfold book_ids. by rewrite Hbook1.
  - rewrite <- Hid. by apply list_elem_of_fmap_2.
Qed.

Lemma run_steps_ok {A} (step : A → database → result unit * database)
    (inv : database → Prop) (xs : list A) :
  (∀ x d, inv d → (step x d).1 = Ok () ∧ inv (step x d).2) →
  ∀ d, inv d → (run_steps step xs d).1 = Ok ().
Proof.
  intros Hstep. induction xs as [|x xs IH]; intros d Hd; simpl; [done|].
  destruct (Hstep x d Hd) as [Hok Hinv].
  destruct (step x d) as [[[]|e] d1]; simpl in *; [by apply IH|done].
Qed.

Lemma book_step_valid self d :
  ¬ url_taken self d →
  ∃ b_id d1, book_step self d = (Ok b_id, d1) ∧ b_id ∈ book_ids d1 ∧
             lookup_book_id (Book.isbn self) d1 = Some b_id.
Proof.
  intros Hfree. destruct (lookup_book_id (Book.isbn self) d) as [b_id|] eqn:Hlook.
  - exists b_id, d. unfold book_step. rewrite Hlook. split_and!; try done.
    apply head_fmap_filter_Some in Hlook as (row & Hin & _ & <-).
    by apply list_elem_of_fmap_2.
  - pose proof (lookup_book_id_None _ _ Hlook) as Hisbn.
    assert (Book.url self ∉ book_url <$> book d) as Hurl.
    { intros Hurl. by apply Hfree. }
    rewrite (book_step_new self d Hisbn Hurl). do 2 eexists. split_and!; [done|..].
    + unfold book_ids. simpl. rewrite fmap_app. apply elem_of_app. right. left.
    + unfold lookup_book_id in *. simpl. rewrite filter_app.
      rewrite (head_fmap_None _ _ Hlook). simpl. by rewrite filter_cons, decide_True.
Qed.

Lemma no_row_zero d : well_formed d → 0%Z ∉ book_ids d.
Proof.
  intros [_ [_ Hpos] _ _ _] Hin. rewrite Forall_forall in Hpos.
  specialize (Hpos _ Hin). lia.
Qed.

Lemma author_step_no_book a d :
  well_formed d →
  (author_step 0 a d).1 = Raise (IntegrityError ForeignKeyViolation).
Proof.
  intros Hwf. destruct (author_found_spec a d) as ((Hbook & _) & _ & Hlinks).
  rewrite author_step_unfold. destruct (author_found a d) as [a_id d1]. simpl in *.
  pose proof (no_row_zero d Hwf) as Hzero.
  unfold insert_book_author. rewrite bool_decide_eq_false_2.
  - rewrite (bool_decide_eq_false_2 (0%Z ∈ book_ids d1)); [done|].
    unfold book_ids. by rewrite Hbook.
  - rewrite Hlinks. intros Hin. destruct Hwf as [_ _ _ _ [Hrefs _]].
    rewrite Forall_forall in Hrefs. by destruct (Hrefs _ Hin).
Qed.

Lemma subject_step_no_book name d :
  well_formed d →
  (subject_step 0 name d).1 = Raise (IntegrityError ForeignKeyViolation).
Proof.
  intros Hwf. destruct (subject_found_spec name d) as ((Hbook & _) & _ & Hlinks).
  rewrite subject_step_unfold. destruct (subject_found name d) as [s_id d1]. simpl in *.
  pose proof (no_row_zero d Hwf) as Hzero.
  unfold insert_book_subject. rewrite bool_decide_eq_false_2.
  - rewrite (bool_decide_eq_false_2 (0%Z ∈ book_ids d1)); [done|].
    unfold book_ids. by rewrite Hbook.
  - rewrite Hlinks. intros Hin. destruct Hwf as [_ _ _ _ [_ Hrefs]].
    rewrite Forall_forall in Hrefs. by destruct (Hrefs _ Hin).
Qed.

Lemma run_steps_first_fails {A} (step : A → database → result unit * database)
    (x : A) (xs : list A) (d : database) (e : exn) :
  (step x d).1 = Raise e → (run_steps step (x :: xs) d).1 = Raise e.
Proof. simpl. by destruct (step x d) as [[[]|e'] d1]; simpl; intros [= <-]. Qed.

(** The outcome of [save] in a store that satisfies the schema, the
    engine failing nothing.  When the url of the book belongs to a row
    with another isbn, [save] raises a foreign-key violation if the book
    has an author or a subject, and otherwise returns having written
    nothing; in every other case it returns, the isbn then finds a row,
    and every author and subject of the book has a row linked to it. *)
Theorem save_outcome (self : Book.t) (d : database) :
  well_formed d →
  (url_taken self d → Book.authors self ≠ [] ∨ Book.subjects self ≠ ∅ →
   (Book.save self None d).1 = Raise (IntegrityError ForeignKeyViolation)) ∧
  (url_taken self d → Book.authors self = [] → Book.subjects self = ∅ →
   Book.save self None d = (Ok (), d)) ∧
  (¬ url_taken self d →
   (Book.save self None d).1 = Ok () ∧
   ∃ b_id, lookup_book_id (Book.isbn self) (Book.save self None d).2 = Some b_id ∧
           Forall (author_settled b_id (Book.save self None d).2) (Book.authors self) ∧
           ∀ name, name ∈ Book.subjects self →
                   subject_settled b_id (Book.save self None d).2 name).
Proof.
  intros Hwf. rewrite save_quiet. unfold save_summary. split_and!.
  - intros [Hisbn Hurl] Hlinks. rewrite (book_step_conflict self d Hisbn Hurl).
    destruct (Book.authors self) as [|a rest] eqn:Hauthors.
    + destruct Hlinks as [?|Hsubjects]; [done|]. simpl.
      destruct (elements (Book.subjects self)) as [|name names] eqn:Helements.
      { by apply elements_empty_inv, leibniz_equiv in Helements. }
      pose proof (run_steps_first_fails (subject_step 0) name names d _
                    (subject_step_no_book name d Hwf)) as Hfail.
      by destruct (run_steps (subject_step 0) (name :: names) d) as [[[]|e] d3].
    + pose proof (run_steps_first_fails (author_step 0) a rest d _
                    (author_step_no_book a d Hwf)) as Hfail.
      destruct (run_steps (author_step 0) (a :: rest) d) as [[[]|e] d2]; [done|].
      simpl in *. congruence.
  - intros [Hisbn Hurl] Hauthors Hsubjects.
    rewrite (book_step_conflict self d Hisbn Hurl), Hauthors, Hsubjects.
    by rewrite elements_empty.
  - intros Hfree. destruct (book_step_valid self d Hfree) as (b_id & d1 & -> & Hb & Hlook).
    pose proof (run_steps_ok (author_step b_id) (λ d', b_id ∈ book_ids d')
                  (Book.authors self) (λ a d' H, author_step_ok b_id a d' H) d1 Hb) as Hok2.
    pose proof (run_steps_extends (author_step b_id)
                  (λ x d', proj1 (author_step_spec b_id x d')) (Book.authors self) d1)
      as Hext2.
    pose proof (run_steps_settles (author_step b_id) (author_settled b_id)
                  (λ x d', proj1 (author_step_spec b_id x d'))
                  (λ x d', proj1 (proj2 (author_step_spec b_id x d')))
                  (λ x d' d'', author_settled_extends b_id d' d'' x)
                  (Book.authors self) d1 Hok2) as Hset2.
    destruct (run_steps (author_step b_id) (Book.authors self) d1) as [[[]|e] d2];
      [|done]. simpl in *.
    assert (b_id ∈ book_ids d2) as Hb2.
    { unfold book_ids. destruct Hext2 as [-> _]. done. }
    pose proof (run_steps_ok (subject_step b_id) (λ d', b_id ∈ book_ids d')
                  (elements (Book.subjects self))
                  (λ s d' H, subject_step_ok b_id s d' H) d2 Hb2) as Hok3.
    pose proof (run_steps_extends (subject_step b_id)
                  (λ x d', proj1 (subject_step_spec b_id x d'))
                  (elements (Book.subjects self)) d2) as Hext3.
    pose proof (run_steps_settles (subject_step b_id) (subject_settled b_id)
                  (λ x d', proj1 (subject_step_spec b_id x d'))
                  (λ x d', proj1 (proj2 (subject_step_spec b_id x d')))
                  (λ x d' d'', subject_settled_extends b_id d' d'' x)
                  (elements (Book.subjects self)) d2 Hok3) as Hset3.
    split; [done|]. exists b_id. split_and!.
    + unfold lookup_book_id in *. destruct Hext3 as [-> _]. by destruct Hext2 as [-> _].
    + eapply Forall_impl; [exact Hset2|]. intros a. by apply author_settled_extends.
    + intros name Hname. rewrite Forall_forall in Hset3. apply Hset3.
      by apply elem_of_elements.
Qed.

Lemma save_outcome_witness :
  (Book.save url_rival None (Book.save sample_book None empty).2).1 =
    Raise (IntegrityError ForeignKeyViolation) ∧
  (Book.save second_book None (Book.save sample_book None empty).2).1 = Ok ().
Proof.
  destruct (save_outcome url_rival (Book.save sample_book None empty).2)
    as (Hraises & _ & _); [apply save_well_formed, empty_well_formed|].
  destruct (save_outcome second_book (Book.save sample_book None empty).2)
    as (_ & _ & Hreturns); [apply save_well_formed, empty_well_formed|].
  split.
  - apply Hraises; [|by left].
    split; apply (bool_decide_unpack _); by vm_compute.
  - refine (proj1 (Hreturns _)). intros [_ Hurl]. revert Hurl.
    apply (bool_decide_unpack _). by vm_compute.
Defined.

(** * A known isbn *)

Lemma run_book_kept st d d' rowid :
  run st d = Inserted d' rowid →
  match st with InsertBook _ _ _ _ _ => False | _ => True end →
  book d' = book d.
Proof.
  destruct st; simpl; try done.
  - unfold insert_author. case_bool_decide; try done. by intros [= <- _].
  - unfold insert_book_author. repeat case_bool_decide; simpl; try done; by intros [= <- _].
  - unfold insert_subject. case_bool_decide; try done. by intros [= <- _].
  - unfold insert_book_subject. repeat case_bool_decide; simpl; try done; by intros [= <- _].
Qed.

Lemma execute_book_kept bk st :
  match st with InsertBook _ _ _ _ _ => False | _ => True end →
  keeps (λ d, book d = bk) (execute st).
Proof.
  intros Hst. apply keeps_execute. intros d d' rowid Hd Hrun.
  by rewrite (run_book_kept _ _ _ _ Hrun Hst).
Qed.

Ltac book_kept_steps :=
  repeat first
    [ apply keeps_ret
    | apply keeps_commit
    | match goal with
      | |- keeps _ (execute ?st) => exact (execute_book_kept _ st I)
      end
    | apply keeps_for_each; intros ?
    | match goal with
      | |- keeps _ (match fetchone ?cur with _ => _ end) => destruct (fetchone cur)
      end
    | apply keeps_bind; [|intros ?] ].

Lemma execute_cases st c :
  let c0 := (issue st c).2 in
  store c0 = store c ∧ undo c0 = undo c ∧ last_insert_rowid c0 = last_insert_rowid c ∧
  (execute st c = (Raise (OperationalError st), c0) ∨ execute st c = perform st c0).
Proof.
  unfold execute, mbind, M_bind, issue.
  destruct (faults c) as [[|n]|]; simpl; repeat split; auto.
Qed.

Lemma save_book_known self bk c :
  Book.isbn self ∈ book_isbn <$> bk →
  sound (λ d, book d = bk) c → sound (λ d, book d = bk) (Book.save_book self c).2.
Proof.
  intros Hisbn [Hs Hu]. unfold Book.save_book, mbind, M_bind.
  destruct (execute_cases (SelectBookIdByIsbn (Book.isbn self)) c)
    as (Hs0 & Hu0 & _ & [-> | ->]); simpl.
  { split; simpl; by rewrite ?Hs0, ?Hu0. }
  unfold perform. simpl. unfold fetchone. simpl. rewrite Hs0, Hs.
  destruct (filter _ bk) as [|row rest] eqn:Hfilter; simpl.
  - exfalso. apply list_elem_of_fmap in Hisbn as (row & Hrow & Hin).
    assert (row ∈ filter (λ b, book_isbn b = Book.isbn self) bk) as Hfound
      by (by apply list_elem_of_filter).
    rewrite Hfilter in Hfound. by apply elem_of_nil in Hfound.
  - split; simpl; by rewrite ?Hs0, ?Hu0.
Qed.

(** For an isbn that a book row carries, [save] leaves the book table as
    it is, whatever the engine fails: the title, the url and the cover of
    a stored book are never rewritten. *)
Theorem save_known_isbn (self : Book.t) (failing : option nat) (d : database) :
  Book.isbn self ∈ book_isbn <$> book d →
  book (Book.save self failing d).2 = book d.
Proof.
  intros Hisbn. unfold Book.save.
  apply (db_conn_keeps (λ d', book d' = book d)); [|done].
  intros c Hc. unfold Book.save_body, mbind, M_bind at 1.
  pose proof (save_book_known self (book d) c Hisbn Hc) as Hbook.
  destruct (Book.save_book self c) as [[b_id|e] c1]; simpl in *; [|done].
  revert c1 Hbook.
  change (keeps (λ d', book d' = book d)
    (for_each (Book.authors self) (Book.save_author b_id);;
     for_each (elements (Book.subjects self)) (Book.save_subject b_id);; commit)).
  unfold Book.save_author, Book.save_subject,
    Book.find_or_create_author, Book.find_or_create_subject.
  book_kept_steps.
Qed.

Lemma save_known_isbn_witness :
  book (Book.save (Book.new "https://ol/elsewhere" "9780226550275" "Another title" None
                     [] ∅ None)
          (Some 7%nat) (Book.save sample_book None empty).2).2 =
    book (Book.save sample_book None empty).2.
Proof.
  apply save_known_isbn. apply (bool_decide_unpack _). by vm_compute.
Defined.

(** * What [from_db] returns *)

Lemma NoDup_fmap_inj {A B} (f : A → B) (l : list A) (x y : A) :
  NoDup (f <$> l) → x ∈ l → y ∈ l → f x = f y → x = y.
Proof.
  induction l as [|z l IH]; intros Hnd Hx Hy Heq; [by apply elem_of_nil in Hx|].
  rewrite fmap_cons in Hnd. apply NoDup_cons in Hnd as [Hz Hnd].
  apply elem_of_cons in Hx as [->|Hx], Hy as [->|Hy]; try done.
  - exfalso. apply Hz. rewrite Heq. by apply list_elem_of_fmap_2.
  - exfalso. apply Hz. rewrite <- Heq. by apply list_elem_of_fmap_2.
  - by apply IH.
Qed.

Lemma elem_of_join_inv {R V} (rid : R → Z) (val : R → V) b_id links table (y : V) :
  y ∈ join rid val b_id links table →
  ∃ l r, l ∈ links ∧ l.1 = b_id ∧ r ∈ table ∧ rid r = l.2 ∧ y = val r.
Proof.
  unfold join. intros (l & Hy & Hl)%list_elem_of_bind.
  apply list_elem_of_filter in Hl as [Hb Hl].
  apply list_elem_of_bind in Hy as (r & Hy & Hr).
  apply list_elem_of_filter in Hr as [Hid Hr].
  apply list_elem_of_singleton in Hy. by exists l, r.
Qed.

Lemma authors_of_book_urls b_id d :
  well_formed d → NoDup (authors_of_book b_id d).*1.
Proof.
  intros [[_ _ Hurls _ Hlinks _] _ _ _ _]. rewrite authors_of_book_join.
  assert (∀ r1 r2, r1 ∈ author d → r2 ∈ author d →
                   author_url r1 = author_url r2 → r1 = r2) as Hrow.
  { intros r1 r2. by apply NoDup_fmap_inj. }
  apply NoDup_fmap_2_strong.
  { intros p1 p2 (l1 & r1 & _ & _ & Hr1 & _ & ->)%elem_of_join_inv
      (l2 & r2 & _ & _ & Hr2 & _ & ->)%elem_of_join_inv Heq.
    simpl in Heq. by rewrite (Hrow r1 r2). }
  unfold join. apply NoDup_bind.
  - intros [b1 a1] [b2 a2] p [Hb1 _]%list_elem_of_filter [Hb2 _]%list_elem_of_filter
      (r1 & ->%list_elem_of_singleton & [Hid1 Hr1]%list_elem_of_filter)%list_elem_of_bind
      (r2 & Hp & [Hid2 Hr2]%list_elem_of_filter)%list_elem_of_bind.
    apply list_elem_of_singleton in Hp. simpl in *.
    assert (r1 = r2) as -> by (apply Hrow; [done|done|congruence]). congruence.
  - intros l _. rewrite bind_singleton_fmap. apply NoDup_fmap_2_strong.
    + intros r1 r2 [_ Hr1]%list_elem_of_filter [_ Hr2]%list_elem_of_filter Heq.
      apply Hrow; [done|done|congruence].
    + apply NoDup_filter. by apply NoDup_fmap_1 in Hurls.
  - by apply NoDup_filter.
Qed.

(** In a store that satisfies the schema, the book that [from_db]
    returns carries the isbn asked for, given as a string or as an [Isbn]
    object, and no two of its authors share a url. *)
Theorem from_db_result (isbn : Book.isbn_like) (d : database) (loaded : Book.t) :
  well_formed d →
  (Book.from_db isbn None d).1 = Ok loaded →
  Book.isbn loaded = Book.canonical_of isbn ∧
  NoDup (Author.url <$> Book.authors loaded).
Proof.
  intros Hwf. rewrite from_db_quiet. simpl. unfold from_db_summary.
  destruct (filter _ (book d)) as [|row rest] eqn:Hfilter; [done|]. simpl.
  intros [= <-]. simpl. split.
  - assert (row ∈ filter (λ b, book_isbn b = Book.canonical_of isbn) (book d)) as Hin
      by (rewrite Hfilter; left).
    by apply list_elem_of_filter in Hin as [? _].
  - rewrite <- list_fmap_compose.
    by apply (authors_of_book_urls (book_id row)) in Hwf.
Qed.

Lemma from_db_result_witness :
  ∃ loaded,
    (Book.from_db (Book.IsbnObject {| canonical := "9780226550275" |}) None
       (Book.save sample_book None empty).2).1 = Ok loaded ∧
    Book.isbn loaded = "9780226550275".
Proof.
  destruct (Book.from_db (Book.IsbnObject {| canonical := "9780226550275" |}) None
              (Book.save sample_book None empty).2).1 as [loaded|e] eqn:Hloaded.
  - exists loaded. split; [done|].
    refine (proj1 (from_db_result _ _ loaded _ Hloaded)).
    apply save_well_formed, empty_well_formed.
  - exfalso. vm_compute in Hloaded. discriminate.
Defined.

(** * Building a book from the service's record *)

Lemma comprehension_authors (authors : list Author.t) :
  comprehension author_of_entry
    ((λ a, AuthorEntry (Some (Author.url a)) (Some (Author.name a))) <$> authors) =
    Ok authors.
Proof.
  induction authors as [|[url name] authors IH]; [done|].
  rewrite fmap_cons. simpl. by rewrite IH.
Qed.

Lemma comprehension_subjects (names : list string) :
  comprehension (λ s, item "name" (entry_subject_name s))
    ((λ name, SubjectEntry (Some name)) <$> names) = Ok names.
Proof.
  induction names as [|name names IH]; [done|].
  rewrite fmap_cons. simpl. by rewrite IH.
Qed.

(** [from_openlibrary] reads back the book a record holds: with the
    record of a book under the key, it returns that book, the isbn being
    the canonical form asked for. *)
Theorem from_openlibrary_reads_back
    (httpx_get : string → result (@response book_data)) (isbn : Isbn)
    (out : list printed) (b : Book.t) :
  fetch_openlibrary_book httpx_get isbn = (out, Ok (data_of_book b)) →
  Book.isbn b = canonical isbn →
  from_openlibrary httpx_get isbn = (out, Ok b).
Proof.
  intros Hfetch Hisbn. unfold from_openlibrary. rewrite Hfetch. f_equal.
  unfold mbind, result_bind, book_of_data, data_of_book. simpl.
  unfold mbind, result_bind. simpl.
  rewrite comprehension_authors, comprehension_subjects, list_to_set_elements_L.
  rewrite <- Hisbn. destruct b as [? ? ? ? ? ? [large|]]; simpl.
  - by rewrite lookup_singleton_eq.
  - by rewrite lookup_empty.
Qed.

Lemma from_openlibrary_reads_back_witness :
  from_openlibrary
    (λ _, Ok (Response 200 [] (Ok {["ISBN:9780226550275" := data_of_book sample_book]})))
    {| canonical := "9780226550275" |} = ([], Ok sample_book).
Proof.
  by apply from_openlibrary_reads_back.
Defined.

(** A record without the [cover] key makes [from_openlibrary] raise
    [KeyError], whatever else it holds, although the book's cover is
    optional. *)
Theorem from_openlibrary_needs_cover
    (httpx_get : string → result (@response book_data)) (isbn : Isbn)
    (out : list printed) (book : book_data) :
  fetch_openlibrary_book httpx_get isbn = (out, Ok book) →
  data_cover book = None →
  from_openlibrary httpx_get isbn = (out, Raise (KeyError "cover")).
Proof.
  intros Hfetch Hcover. unfold from_openlibrary. rewrite Hfetch.
  unfold mbind, result_bind, book_of_data. by rewrite Hcover.
Qed.

Lemma from_openlibrary_needs_cover_witness :
  from_openlibrary
    (λ _, Ok (Response 200 []
       (Ok {["ISBN:9780226550275" :=
               BookData (Some "https://ol/b1") (Some "T") None (Some []) (Some []) None]})))
    {| canonical := "9780226550275" |} = ([], Raise (KeyError "cover")).
Proof.
  by eapply from_openlibrary_needs_cover.
Defined.

(** * The capture loop *)

Section LoopFacts.
Context (get_isbnlike : string → list string) (Isbn_new : string → result Isbn).

(** One pass of the loop body changes the state only by recording an
    isbn that was not yet found and whose book was fetched: the isbn
    joins [FOUND_ISBN], and the file becomes what [save] leaves, also
    when [save] raises.  [FOUND_ISBN] and the tables only grow. *)
Theorem on_text_effect (httpx_get : string → result (@response book_data))
    (text : string) (failing : option nat) (s : state) :
  let pass := on_text get_isbnlike Isbn_new httpx_get text failing s in
  FOUND_ISBN s ⊆ FOUND_ISBN pass.2 ∧
  grows (DB_FILE s) (DB_FILE pass.2) ∧
  (pass.2 ≠ s →
   ∃ isbn book,
     find_isbn get_isbnlike Isbn_new text = Ok (Some isbn) ∧
     (canonical isbn ∉ FOUND_ISBN s) ∧
     (from_openlibrary httpx_get isbn).2 = Ok book ∧
     FOUND_ISBN pass.2 = {[canonical isbn]} ∪ FOUND_ISBN s ∧
     (pass.1.1, DB_FILE pass.2) = Book.save book failing (DB_FILE s)).
Proof.
  unfold on_text.
  destruct (find_isbn get_isbnlike Isbn_new text) as [[isbn|]|e]; simpl.
  - case_bool_decide as Hfound; simpl.
    { split_and!; [reflexivity|apply grows_refl|]. intros Hne. exfalso. by apply Hne. }
    destruct (from_openlibrary httpx_get isbn) as [out [book|e]] eqn:Hfetch; simpl.
    + pose proof (save_grows book failing (DB_FILE s)) as Hgrows.
      destruct (Book.save book failing (DB_FILE s)) as [r db] eqn:Hsave. simpl in *.
      split_and!; [apply union_subseteq_r|done|]. intros _.
      exists isbn, book. rewrite Hfetch, Hsave. by split_and!.
    + split_and!; [reflexivity|apply grows_refl|]. intros Hne. exfalso. by apply Hne.
  - split_and!; [reflexivity|apply grows_refl|]. intros Hne. exfalso. by apply Hne.
  - split_and!; [reflexivity|apply grows_refl|]. intros Hne. exfalso. by apply Hne.
Qed.

(** Once a pass has changed the state, a further pass over the same text
    does nothing, whatever the service and the engine do: the book is
    not fetched again and not saved again, also when its [save] raised. *)
Theorem on_text_once (httpx_get : string → result (@response book_data))
    (text : string) (failing : option nat) (s : state) :
  (on_text get_isbnlike Isbn_new httpx_get text failing s).2 ≠ s →
  ∀ httpx_get' failing',
    on_text get_isbnlike Isbn_new httpx_get' text failing'
      (on_text get_isbnlike Isbn_new httpx_get text failing s).2 =
    (Ok (), [], (on_text get_isbnlike Isbn_new httpx_get text failing s).2).
Proof.
  unfold on_text.
  destruct (find_isbn get_isbnlike Isbn_new text) as [[isbn|]|e]; simpl; try done.
  case_bool_decide as Hfound; simpl; [done|].
  destruct (from_openlibrary httpx_get isbn) as [out [book|e]]; simpl; [|done].
  destruct (Book.save book failing (DB_FILE s)) as [r db]. simpl.
  intros _ httpx_get' failing'. rewrite bool_decide_eq_true_2; [done|].
  apply elem_of_union_l, elem_of_singleton. done.
Qed.

End LoopFacts.

Lemma on_text_effect_witness :
  ∃ isbn,
    find_isbn sample_get_isbnlike sample_Isbn_new "9780226550275" = Ok (Some isbn) ∧
    FOUND_ISBN (on_text sample_get_isbnlike sample_Isbn_new sample_service
                  "9780226550275" None (State ∅ empty)).2 =
      {[canonical isbn]} ∪ FOUND_ISBN (State ∅ empty).
Proof.
  destruct (proj2 (proj2 (on_text_effect sample_get_isbnlike sample_Isbn_new sample_service
                            "9780226550275" None (State ∅ empty))))
    as (isbn & book & Hfind & _ & _ & Hfound & _).
  - intros Hsame.
    assert ("9780226550275" ∈
            FOUND_ISBN (on_text sample_get_isbnlike sample_Isbn_new sample_service
                          "9780226550275" None (State ∅ empty)).2) as Hin
      by (apply (bool_decide_unpack _); by vm_compute).
    rewrite Hsame in Hin. simpl in Hin. by apply not_elem_of_empty in Hin.
  - exists isbn. exact (conj Hfind Hfound).
Defined.

Lemma on_text_once_witness :
  on_text sample_get_isbnlike sample_Isbn_new unreachable_service "9780226550275" (Some 0%nat)
    (on_text sample_get_isbnlike sample_Isbn_new sample_service "9780226550275" None
       (State ∅ empty)).2 =
  (Ok (), [],
   (on_text sample_get_isbnlike sample_Isbn_new sample_service "9780226550275" None
      (State ∅ empty)).2).
Proof.
  apply on_text_once. intros Hsame.
  assert ("9780226550275" ∈
          FOUND_ISBN (on_text sample_get_isbnlike sample_Isbn_new sample_service
                        "9780226550275" None (State ∅ empty)).2) as Hin
    by (apply (bool_decide_unpack _); by vm_compute).
  rewrite Hsame in Hin. simpl in Hin. by apply not_elem_of_empty in Hin.
Defined.

(** * Where the database file is *)

(** A variable set to the empty string counts as unset: the path is the
    one computed without it. *)
Theorem db_file_of_empty_is_unset {Path : Type} (home : Path) (path : string → Path)
    (joinpath : Path → Path → Path) (environ : gmap string string) (var : string) :
  var = "XDG_DATA_HOME" ∨ var = "OL_OCR_DB" →
  environ !! var = Some "" →
  db_file_of home path joinpath environ =
    db_file_of home path joinpath (delete var environ).
Proof.
  intros [-> | ->] Hempty; unfold db_file_of.
  - rewrite Hempty, lookup_delete_eq. by rewrite lookup_delete_ne.
  - rewrite Hempty, lookup_delete_eq. by rewrite lookup_delete_ne.
Qed.

Lemma db_file_of_empty_is_unset_witness :
  db_file_of "/home/user" id (λ p q, p +:+ "/" +:+ q)
    {["XDG_DATA_HOME" := ""; "OL_OCR_DB" := "books.db"]} = "/home/user/books.db".
Proof.
  rewrite (db_file_of_empty_is_unset "/home/user" id (λ p q, p +:+ "/" +:+ q)
             _ "XDG_DATA_HOME"); [by vm_compute|by left|by vm_compute].
Defined.

(** * What [save] and [from_db] raise *)

Lemma execute_store_error st :
  match st with InsertBook _ _ _ _ _ => False | _ => True end →
  hoare (λ _, True) (execute st) (λ _ _, True) (λ e _, store_error e).
Proof.
  intros Hst. apply hoare_execute. intros c c' _ _. split; [left; by eexists|].
  destruct st; simpl; try done.
  - unfold insert_author. by case_bool_decide.
  - unfold insert_book_author. repeat case_bool_decide; simpl; try done; by right.
  - unfold insert_subject. by case_bool_decide.
  - unfold insert_book_subject. repeat case_bool_decide; simpl; try done; by right.
Qed.

Ltac store_error_steps :=
  repeat first
    [ by apply hoare_ret
    | match goal with
      | |- hoare _ (execute ?st) _ _ => exact (execute_store_error st I)
      | |- hoare _ commit _ _ => by intros c _
      end
    | apply hoare_for_each; intros ?
    | match goal with
      | |- hoare _ (match fetchone ?cur with _ => _ end) _ _ => destruct (fetchone cur)
      end
    | eapply (hoare_bind _ _ _ (λ _ _, True)); [|intros ?] ].

Lemma save_loops_store_error self b_id :
  hoare (λ _, True)
    (for_each (Book.authors self) (Book.save_author b_id);;
     for_each (elements (Book.subjects self)) (Book.save_subject b_id);;
     commit)
    (λ _ _, True) (λ e _, store_error e).
Proof.
  unfold Book.save_author, Book.save_subject, Book.find_or_create_author,
    Book.find_or_create_subject.
  store_error_steps.
Qed.

Lemma save_book_store_error self :
  hoare (λ _, True) (Book.save_book self) (λ _ _, True) (λ e _, store_error e).
Proof.
  intros c _. unfold Book.save_book, mbind, M_bind.
  destruct (execute_cases (SelectBookIdByIsbn (Book.isbn self)) c)
    as (Hs0 & _ & _ & [-> | ->]); [left; by eexists|].
  unfold perform at 1. simpl. unfold fetchone. simpl. rewrite Hs0.
  fold (lookup_book_id (Book.isbn self) (store c)).
  destruct (lookup_book_id (Book.isbn self) (store c)) as [b_id|] eqn:Hlook; [done|].
  pose proof (lookup_book_id_None _ _ Hlook) as Hisbn.
  set (c0 := (issue (SelectBookIdByIsbn (Book.isbn self)) c).2) in *.
  unfold transaction, begin, mbind, M_bind.
  destruct (issue_same_tables Begin c0) as (Hs1 & _ & _).
  pose proof (issue_raises Begin c0) as Hraise1.
  destruct (issue Begin c0) as [[[]|e1] c1]; simpl in *;
    [|left; eexists; by apply Hraise1].
  destruct (undo c1); [left; by eexists|].
  unfold try_except_else, execute, mbind, M_bind. simpl.
  match goal with |- context [issue ?st ?c2] =>
    destruct (issue_same_tables st c2) as (Hs2 & _ & _);
    pose proof (issue_raises st c2) as Hraise2;
    destruct (issue st c2) as [[[]|e2] c3] end; simpl in *;
    [|left; eexists; by apply Hraise2].
  unfold perform. simpl. rewrite Hs2, Hs1, Hs0. unfold insert_book.
  rewrite (bool_decide_eq_false_2 _ Hisbn). by case_bool_decide.
Qed.

(** Whatever the engine fails, [save] raises nothing but the failure of a
    statement or a foreign-key violation: never a uniqueness violation,
    the isbn being looked up before the insert. *)
Theorem save_raises (self : Book.t) (failing : option nat) (d : database) (e : exn) :
  (Book.save self failing d).1 = Raise e → store_error e.
Proof.
  unfold Book.save, db_conn.
  assert (hoare (λ _, True) (session (Book.save_body self)) (λ _ _, True)
            (λ e _, store_error e)) as Hsession.
  { unfold session.
    repeat (eapply (hoare_bind _ _ _ (λ _ _, True));
      [ match goal with |- hoare _ (execute ?st) _ _ =>
          exact (execute_store_error st I) end
      | intros _ ]).
    intros c _. unfold finally.
    pose proof (hoare_bind _ _ _ _ _ _ (save_book_store_error self)
                  (λ b_id, save_loops_store_error self b_id) c I) as Hbody.
    change (Book.save_book self ≫= _) with (Book.save_body self) in Hbody.
    destruct (Book.save_body self c) as [r c1]. unfold mbind, M_bind.
    destruct (pragma_cases "analysis_limit=400" c1) as (_ & Hr1).
    destruct (execute (Pragma "analysis_limit=400") c1) as [[cur1|e1] c2]; simpl in *;
      [|left; eexists; by apply Hr1].
    destruct (pragma_cases "optimize" c2) as (_ & Hr2).
    destruct (execute (Pragma "optimize") c2) as [[cur2|e2] c3]; simpl in *;
      [|left; eexists; by apply Hr2].
    by destruct r. }
  specialize (Hsession (connect d failing) I).
  destruct (session (Book.save_body self) (connect d failing)) as [[[]|e'] c']; simpl;
    [done|]. by intros [= <-].
Qed.

Lemma save_raises_witness :
  store_error (IntegrityError ForeignKeyViolation) ∧
  (Book.save url_rival None (Book.save sample_book None empty).2).1 =
    Raise (IntegrityError ForeignKeyViolation).
Proof.
  assert ((Book.save url_rival None (Book.save sample_book None empty).2).1 =
            Raise (IntegrityError ForeignKeyViolation)) as Hraised by by vm_compute.
  split; [|exact Hraised]. exact (save_raises _ _ _ _ Hraised).
Defined.

Lemma from_db_body_raises isbn d :
  hoare (λ c, store c = d) (Book.from_db_body isbn) (λ _ _, True)
    (λ e _, (∃ st, e = OperationalError st) ∨
            (e = BookNotInDatabaseError isbn ∧ isbn ∉ book_isbn <$> book d)).
Proof.
  unfold Book.from_db_body.
  eapply (hoare_bind _ _ _
    (λ cur _, fetchone cur = head (filter (λ b, book_isbn b = isbn) (book d)))).
  { apply (hoare_execute (SelectBookByIsbn isbn)). intros c c' Hc (Hs & _ & _). simpl.
    split; [left; by eexists|]. by rewrite Hs, Hc. }
  intros cur. destruct (fetchone cur) as [row|] eqn:Hfetch.
  - eapply (hoare_bind _ _ _ (λ _ _, True)).
    { apply (hoare_execute (SelectAuthorsOfBook (book_id row))). intros c c' _ _. simpl.
      split; [left; by eexists|done]. }
    intros cur1. eapply (hoare_bind _ _ _ (λ _ _, True)).
    { apply (hoare_execute (SelectSubjectsOfBook (book_id row))). intros c c' _ _. simpl.
      split; [left; by eexists|done]. }
    intros cur2. by apply hoare_ret.
  - intros c Hhead. simpl. right. split; [done|].
    intros Hin. apply list_elem_of_fmap in Hin as (row & -> & Hrow).
    assert (row ∈ filter (λ b, book_isbn b = book_isbn row) (book d)) as Hfound
      by (by apply list_elem_of_filter).
    destruct (filter _ (book d)); [by apply elem_of_nil in Hfound|done].
Qed.

(** Whatever the engine fails, [from_db] raises nothing but the failure
    of a statement or [BookNotInDatabaseError] with the isbn asked for,
    and the latter only for an isbn that no book row carries. *)
Theorem from_db_raises (isbn : Book.isbn_like) (failing : option nat) (d : database)
    (e : exn) :
  (Book.from_db isbn failing d).1 = Raise e →
  (∃ st, e = OperationalError st) ∨
  (e = BookNotInDatabaseError (Book.canonical_of isbn) ∧
   Book.canonical_of isbn ∉ book_isbn <$> book d).
Proof.
  unfold Book.from_db, db_conn.
  set (E := λ (e : exn) (_ : connection),
    (∃ st, e = OperationalError st) ∨
    (e = BookNotInDatabaseError (Book.canonical_of isbn) ∧
     Book.canonical_of isbn ∉ book_isbn <$> book d)).
  assert (hoare (λ c, store c = d) (session (Book.from_db_body (Book.canonical_of isbn)))
            (λ _ _, True) E) as Hsession.
  { unfold session.
    repeat (eapply (hoare_bind _ _ _ (λ _ c, store c = d));
      [ match goal with |- hoare _ (execute (Pragma ?s)) _ _ =>
          apply (hoare_execute (Pragma s)); intros c c' Hc (Hs & _ & _); simpl;
          split; [left; by eexists|congruence]
        end
      | intros _ ]).
    intros c Hc. unfold finally.
    pose proof (from_db_body_raises (Book.canonical_of isbn) d c Hc) as Hbody.
    destruct (Book.from_db_body (Book.canonical_of isbn) c) as [r c1].
    unfold mbind, M_bind.
    destruct (pragma_cases "analysis_limit=400" c1) as (_ & Hr1).
    destruct (execute (Pragma "analysis_limit=400") c1) as [[cur1|e1] c2]; simpl in *;
      [|left; eexists; by apply Hr1].
    destruct (pragma_cases "optimize" c2) as (_ & Hr2).
    destruct (execute (Pragma "optimize") c2) as [[cur2|e2] c3]; simpl in *;
      [|left; eexists; by apply Hr2].
    by destruct r. }
  specialize (Hsession (connect d failing) eq_refl).
  destruct (session (Book.from_db_body (Book.canonical_of isbn)) (connect d failing))
    as [[b|e'] c']; simpl; [done|]. by intros [= <-].
Qed.

Lemma from_db_raises_witness :
  "9780140449136" ∉ book_isbn <$> book (Book.save sample_book None empty).2.
Proof.
  destruct (from_db_raises (Book.IsbnStr "9780140449136") None
              (Book.save sample_book None empty).2
              (BookNotInDatabaseError "9780140449136")) as [[st Hst]|[_ Hmissing]].
  - by vm_compute.
  - discriminate Hst.
  - exact Hmissing.
Defined.

(** * A book whose url is taken is not stored *)

Lemma run_steps_book {A} (step : A → database → result unit * database) (xs : list A) d :
  (∀ x d', extends d' (step x d').2) → book (run_steps step xs d).2 = book d.
Proof. intros Hstep. by destruct (run_steps_extends step Hstep xs d) as [-> _]. Qed.

(** After the [save] of a book whose url belongs to a row with another
    isbn, the engine failing nothing, [from_db] does not find the isbn of
    the book: also when the book has neither author nor subject and
    [save] returned. *)
Theorem save_url_taken_not_stored (self : Book.t) (d : database) :
  url_taken self d →
  (Book.from_db (Book.IsbnStr (Book.isbn self)) None (Book.save self None d).2).1 =
    Raise (BookNotInDatabaseError (Book.isbn self)).
Proof.
  intros [Hisbn Hurl]. rewrite save_quiet, from_db_quiet. simpl.
  assert (book (save_summary self d).2 = book d) as Hbook.
  { unfold save_summary. rewrite (book_step_conflict self d Hisbn Hurl).
    pose proof (run_steps_book (author_step 0) (Book.authors self) d
                  (λ x d', proj1 (author_step_spec 0 x d'))) as Hauthors.
    destruct (run_steps (author_step 0) (Book.authors self) d) as [[[]|e] d2]; [|done].
    simpl in *. rewrite <- Hauthors.
    apply (run_steps_book (subject_step 0) (elements (Book.subjects self)) d2
             (λ x d', proj1 (subject_step_spec 0 x d'))). }
  unfold from_db_summary. rewrite Hbook. rewrite filter_none; [done|].
  intros row Hrow Heq. apply Hisbn. rewrite <- Heq. by apply list_elem_of_fmap_2.
Qed.

Lemma save_url_taken_not_stored_witness :
  (Book.save (Book.new "https://ol/b1" "9780140449136" "U" None [] ∅ None) None
     (Book.save sample_book None empty).2).1 = Ok () ∧
  (Book.from_db (Book.IsbnStr "9780140449136") None
     (Book.save (Book.new "https://ol/b1" "9780140449136" "U" None [] ∅ None) None
        (Book.save sample_book None empty).2).2).1 =
    Raise (BookNotInDatabaseError "9780140449136").
Proof.
  split; [by vm_compute|].
  apply (save_url_taken_not_stored
           (Book.new "https://ol/b1" "9780140449136" "U" None [] ∅ None)).
  split; apply (bool_decide_unpack _); by vm_compute.
Defined.

(** * Saving one book leaves the others as they load *)

Lemma join_links_snoc_other {R V} (rid : R → Z) (val : R → V) b_id links table b' x :
  b' ≠ b_id →
  join rid val b_id (links ++ [(b', x)]) table = join rid val b_id links table.
Proof.
  intros Hne. unfold join. rewrite filter_app, filter_cons, filter_nil.
  rewrite decide_False by done. by rewrite app_nil_r.
Qed.

(** What a book loads as: its authors and subjects in the order of the
    joins. *)
Lemma author_found_frame a d :
  well_formed d →
  well_formed (author_found a d).2 ∧
  (∀ b, authors_of_book b (author_found a d).2 = authors_of_book b d) ∧
  (∀ b, subjects_of_book b (author_found a d).2 = subjects_of_book b d).
Proof.
  intros Hwf. unfold author_found.
  destruct (lookup_author_id (Author.url a) d) as [a_id|] eqn:Hlook; simpl; [done|].
  pose proof (lookup_author_id_None _ _ Hlook) as Hnew.
  rewrite (insert_author_new _ _ _ Hnew). simpl. split_and!; [| |done].
  - eapply insert_author_well_formed; [done|]. by apply insert_author_new.
  - intros b. rewrite !authors_of_book_join. simpl. apply join_table_snoc.
    intros l Hl. simpl. destruct Hwf as [_ _ _ _ [Hrefs _]].
    rewrite Forall_forall in Hrefs. destruct (Hrefs l Hl) as [_ Hid].
    intros Heq. rewrite Heq in Hid. by apply next_rowid_fresh in Hid.
Qed.

Lemma subject_found_frame name d :
  well_formed d →
  well_formed (subject_found name d).2 ∧
  (∀ b, authors_of_book b (subject_found name d).2 = authors_of_book b d) ∧
  (∀ b, subjects_of_book b (subject_found name d).2 = subjects_of_book b d).
Proof.
  intros Hwf. unfold subject_found.
  destruct (lookup_subject_id name d) as [s_id|] eqn:Hlook; simpl; [done|].
  pose proof (lookup_subject_id_None _ _ Hlook) as Hnew.
  rewrite (insert_subject_new _ _ Hnew). simpl. split_and!; [|done|].
  - eapply insert_subject_well_formed; [done|]. by apply insert_subject_new.
  - intros b. rewrite !subjects_of_book_join. simpl. apply join_table_snoc.
    intros l Hl. simpl. destruct Hwf as [_ _ _ _ [_ Hrefs]].
    rewrite Forall_forall in Hrefs. destruct (Hrefs l Hl) as [_ Hid].
    intros Heq. rewrite Heq in Hid. by apply next_rowid_fresh in Hid.
Qed.

Lemma author_step_other b_id b a d :
  well_formed d → b_id ≠ b →
  well_formed (author_step b_id a d).2 ∧
  authors_of_book b (author_step b_id a d).2 = authors_of_book b d ∧
  subjects_of_book b (author_step b_id a d).2 = subjects_of_book b d.
Proof.
  intros Hwf Hne. destruct (author_found_frame a d Hwf) as (Hwf1 & Hauthors & Hsubjects).
  rewrite author_step_unfold. destruct (author_found a d) as [a_id d1]. simpl in *.
  destruct (insert_book_author b_id a_id d1) as [e|?|d' rowid|] eqn:Hins; simpl; try done.
  split_and!.
  - by eapply insert_book_author_well_formed.
  - rewrite <- Hauthors. unfold insert_book_author in Hins.
    repeat case_bool_decide; simpl in Hins; try done. injection Hins as <- _.
    rewrite !authors_of_book_join. simpl. by apply join_links_snoc_other.
  - rewrite <- Hsubjects. unfold insert_book_author in Hins.
    repeat case_bool_decide; simpl in Hins; try done. by injection Hins as <- _.
Qed.

Lemma subject_step_other b_id b name d :
  well_formed d → b_id ≠ b →
  well_formed (subject_step b_id name d).2 ∧
  authors_of_book b (subject_step b_id name d).2 = authors_of_book b d ∧
  subjects_of_book b (subject_step b_id name d).2 = subjects_of_book b d.
Proof.
  intros Hwf Hne. destruct (subject_found_frame name d Hwf) as (Hwf1 & Hauthors & Hsubjects).
  rewrite subject_step_unfold. destruct (subject_found name d) as [s_id d1]. simpl in *.
  destruct (insert_book_subject b_id s_id d1) as [e|?|d' rowid|] eqn:Hins; simpl; try done.
  split_and!.
  - by eapply insert_book_subject_well_formed.
  - rewrite <- Hauthors. unfold insert_book_subject in Hins.
    repeat case_bool_decide; simpl in Hins; try done. by injection Hins as <- _.
  - rewrite <- Hsubjects. unfold insert_book_subject in Hins.
    repeat case_bool_decide; simpl in Hins; try done. injection Hins as <- _.
    rewrite !subjects_of_book_join. simpl. by apply join_links_snoc_other.
Qed.

Lemma run_steps_other {A} (step : A → database → result unit * database)
    (b : Z) (xs : list A) :
  (∀ x d, well_formed d →
          well_formed (step x d).2 ∧
          authors_of_book b (step x d).2 = authors_of_book b d ∧
          subjects_of_book b (step x d).2 = subjects_of_book b d) →
  ∀ d, well_formed d →
       well_formed (run_steps step xs d).2 ∧
       authors_of_book b (run_steps step xs d).2 = authors_of_book b d ∧
       subjects_of_book b (run_steps step xs d).2 = subjects_of_book b d.
Proof.
  intros Hstep. induction xs as [|x xs IH]; intros d Hwf; simpl; [done|].
  destruct (Hstep x d Hwf) as (Hwf1 & Ha1 & Hs1).
  destruct (step x d) as [[[]|e] d1]; simpl in *; [|done].
  destruct (IH d1 Hwf1) as (Hwf2 & Ha2 & Hs2). split_and!; congruence.
Qed.

Lemma book_step_other self d isbn :
  well_formed d → isbn ≠ Book.isbn self →
  ∀ r d1, book_step self d = (r, d1) →
    well_formed d1 ∧
    filter (λ row, book_isbn row = isbn) (book d1) =
      filter (λ row, book_isbn row = isbn) (book d) ∧
    author d1 = author d ∧ subject d1 = subject d ∧
    book_author d1 = book_author d ∧ book_subject d1 = book_subject d ∧
    ∀ b_id row, r = Ok b_id → row ∈ book d → book_isbn row = isbn → b_id ≠ book_id row.
Proof.
  intros Hwf Hne r d1. unfold book_step.
  destruct (lookup_book_id (Book.isbn self) d) as [id|] eqn:Hlook.
  - intros [= <- <-]. split_and!; try done. intros b_id row [= <-] Hrow Hisbn Hid.
    apply head_fmap_filter_Some in Hlook as (row' & Hrow' & Hisbn' & Hid').
    assert (row' = row) as ->.
    { destruct Hwf as [_ [Hnd _] _ _ _].
      apply (NoDup_fmap_inj book_id (book d)); [done|done|done|congruence]. }
    congruence.
  - destruct (insert_book _ _ _ _ _ d) as [e|?|d' rowid|] eqn:Hins.
    + intros [= <- <-]. by split_and!.
    + intros [= <- <-]. split_and!; try done. intros b_id row [= <-] Hrow _ Hid.
      apply (no_row_zero d Hwf). rewrite Hid. by apply list_elem_of_fmap_2.
    + intros [= <- <-]. pose proof (insert_book_well_formed _ _ _ _ _ _ _ _ Hwf Hins).
      unfold insert_book in Hins. repeat case_bool_decide; try done.
      injection Hins as <- <-. simpl. split_and!; try done.
      * rewrite filter_app, filter_cons, filter_nil. simpl.
        rewrite decide_False by done. by rewrite app_nil_r.
      * intros b_id row [= <-] Hrow _ Hid.
        apply (next_rowid_fresh (book_ids d)). rewrite Hid. by apply list_elem_of_fmap_2.
    + intros [= <- <-]. split_and!; try done. intros b_id row [= <-] Hrow _ Hid.
      apply (no_row_zero d Hwf). rewrite Hid. by apply list_elem_of_fmap_2.
Qed.

(** In a store that satisfies the schema, the engine failing nothing,
    the [save] of a book changes nothing of what [from_db] returns for
    any other isbn. *)
Theorem save_leaves_other_books (self : Book.t) (isbn : Book.isbn_like) (d : database) :
  well_formed d → Book.canonical_of isbn ≠ Book.isbn self →
  (Book.from_db isbn None (Book.save self None d).2).1 = (Book.from_db isbn None d).1.
Proof.
  intros Hwf Hne. rewrite save_quiet, !from_db_quiet. simpl.
  set (key := Book.canonical_of isbn) in *.
  unfold save_summary.
  destruct (book_step self d) as [r d1] eqn:Hbook.
  destruct (book_step_other self d key Hwf Hne r d1 Hbook)
    as (Hwf1 & Hfilter & Ha & Hs & Hba & Hbs & Hid).
  assert (∀ b, authors_of_book b d1 = authors_of_book b d) as Hauthors1.
  { intros b. by rewrite !authors_of_book_join, Ha, Hba. }
  assert (∀ b, subjects_of_book b d1 = subjects_of_book b d) as Hsubjects1.
  { intros b. by rewrite !subjects_of_book_join, Hs, Hbs. }
  assert (from_db_summary key d1 = from_db_summary key d) as Hsame1.
  { unfold from_db_summary. rewrite Hfilter.
    destruct (head _); [|done]. by rewrite Hauthors1, Hsubjects1. }
  destruct r as [b_id|e]; simpl; [|done].
  rewrite <- Hsame1.
  set (d3 := (match run_steps (author_step b_id) (Book.authors self) d1 with
              | (Ok _, d2) => run_steps (subject_step b_id) (elements (Book.subjects self)) d2
              | (Raise e, d2) => (Raise e, d2)
              end).2).
  assert (book d3 = book d1) as Hbook3.
  { subst d3.
    pose proof (run_steps_book (author_step b_id) (Book.authors self) d1
                  (λ x d', proj1 (author_step_spec b_id x d'))) as Hb2.
    destruct (run_steps (author_step b_id) (Book.authors self) d1) as [[[]|e] d2]; [|done].
    simpl in *. rewrite <- Hb2.
    apply (run_steps_book (subject_step b_id) (elements (Book.subjects self)) d2
             (λ x d', proj1 (subject_step_spec b_id x d'))). }
  unfold from_db_summary. rewrite Hbook3.
  destruct (filter (λ b, book_isbn b = key) (book d1)) as [|row rest] eqn:Hrows; [done|].
  simpl.
  assert (b_id ≠ book_id row) as Hother.
  { assert (row ∈ filter (λ b, book_isbn b = key) (book d)) as Hrow
      by (rewrite <- Hfilter; left).
    apply list_elem_of_filter in Hrow as [Hisbn Hrow]. by apply (Hid b_id row). }
  assert (authors_of_book (book_id row) d3 = authors_of_book (book_id row) d1 ∧
          subjects_of_book (book_id row) d3 = subjects_of_book (book_id row) d1)
    as [-> ->]; [|done].
  subst d3.
  destruct (run_steps_other (author_step b_id) (book_id row) (Book.authors self)
              (λ x d' H, author_step_other b_id (book_id row) x d' H Hother) d1 Hwf1)
    as (Hwf2 & Ha2 & Hs2).
  destruct (run_steps (author_step b_id) (Book.authors self) d1) as [[[]|e] d2];
    simpl in *; [|done].
  destruct (run_steps_other (subject_step b_id) (book_id row)
              (elements (Book.subjects self))
              (λ x d' H, subject_step_other b_id (book_id row) x d' H Hother) d2 Hwf2)
    as (_ & Ha3 & Hs3).
  split; congruence.
Qed.

Lemma save_leaves_other_books_witness :
  (Book.from_db (Book.IsbnStr "9780226550275") None
     (Book.save second_book None (Book.save sample_book None empty).2).2).1 =
  (Book.from_db (Book.IsbnStr "9780226550275") None (Book.save sample_book None empty).2).1.
Proof.
  apply (save_leaves_other_books second_book (Book.IsbnStr "9780226550275")).
  - apply save_well_formed, empty_well_formed.
  - done.
Defined.
